(** * CryptorgApi: request signing and dispatch

    A shallow embedding of [src/CryptorgApi.js] (the Cryptorg spot-bot client
    for Node.js) together with the parts of the Node runtime it calls into:
    [Buffer], [crypto.createHmac], [Date], [Promise] and the [request]
    transport.  The class itself is embedded in [Module CryptorgApi]; the
    runtime is modelled in the modules that precede it. *)

From Stdlib Require Import ZArith String Ascii List DecimalString DecimalZ.
From stdpp Require Import gmap strings list fin_maps.

Local Open Scope Z_scope.

(** ** Bytes, 32-bit words and their encodings

    A byte is a [Z] in [0, 256); a 32-bit word is a [Z] in [0, 2^32), with the
    wrap-around of unsigned addition written out.  A JavaScript string is
    represented by the [string] holding its UTF-8 encoding, so that string
    concatenation is [String.append] and [new Buffer(s)] exposes the bytes.
    The strings covered are the well-formed ones: a string with an unpaired
    surrogate, which [new Buffer] would rewrite to U+FFFD, has no
    counterpart here. *)

Module Bytes.

Definition of_string (s : string) : list Z :=
  map (fun c => Z.of_N (N_of_ascii c)) (list_ascii_of_string s).

(** Big-endian encoding of [x] on [n] bytes. *)
Fixpoint be (n : nat) (x : Z) : list Z :=
  match n with
  | O => []
  | S k => be k (Z.shiftr x 8) ++ [Z.land x 255]
  end.

(** Big-endian decoding. *)
Definition of_be (l : list Z) : Z :=
  fold_left (fun acc b => Z.lor (Z.shiftl acc 8) b) l 0.

(** Cut a list in consecutive pieces of [n] elements. *)
Fixpoint chunks {A} (fuel : nat) (n : nat) (l : list A) : list (list A) :=
  match fuel, l with
  | O, _ | _, [] => []
  | S k, _ => take n l :: chunks k n (drop n l)
  end.

Definition hex_digit (d : Z) : ascii :=
  if d <? 10 then ascii_of_N (Z.to_N (48 + d))
  else ascii_of_N (Z.to_N (87 + d)).

(** [buf.toString('hex')]: two lowercase digits per byte. *)
Fixpoint hex (l : list Z) : string :=
  match l with
  | [] => EmptyString
  | b :: r => String (hex_digit (Z.shiftr b 4)) (String (hex_digit (Z.land b 15)) (hex r))
  end.

End Bytes.

(** ** Base64 (RFC 4648, standard alphabet, with padding) *)

Module Base64.

Definition alphabet : string :=
  "ABCDEFGHIJKLMNOPQRSTUVWXYZabcdefghijklmnopqrstuvwxyz0123456789+/".

Definition digit (i : Z) : ascii :=
  match String.get (Z.to_nat i) alphabet with
  | Some c => c
  | None => "="%char
  end.

Fixpoint encode (l : list Z) : string :=
  match l with
  | [] => EmptyString
  | [a] =>
      String (digit (Z.shiftr a 2))
      (String (digit (Z.shiftl (Z.land a 3) 4)) "==")
  | [a; b] =>
      String (digit (Z.shiftr a 2))
      (String (digit (Z.lor (Z.shiftl (Z.land a 3) 4) (Z.shiftr b 4)))
      (String (digit (Z.shiftl (Z.land b 15) 2)) "="))
  | a :: b :: c :: r =>
      String (digit (Z.shiftr a 2))
      (String (digit (Z.lor (Z.shiftl (Z.land a 3) 4) (Z.shiftr b 4)))
      (String (digit (Z.lor (Z.shiftl (Z.land b 15) 2) (Z.shiftr c 6)))
      (String (digit (Z.land c 63)) (encode r))))
  end.

End Base64.

(** ** SHA-256 (FIPS 180-4) and HMAC (RFC 2104) *)

Module SHA256.

Definition w32 (x : Z) : Z := Z.land x 0xffffffff.
Definition add32 (x y : Z) : Z := (x + y) mod 2 ^ 32.
Definition rotr (n x : Z) : Z := Z.lor (Z.shiftr x n) (w32 (Z.shiftl x (32 - n))).
Definition not32 (x : Z) : Z := Z.lxor x 0xffffffff.

Definition Ch (x y z : Z) : Z := Z.lxor (Z.land x y) (Z.land (not32 x) z).
Definition Maj (x y z : Z) : Z :=
  Z.lxor (Z.lxor (Z.land x y) (Z.land x z)) (Z.land y z).
Definition Sigma0 (x : Z) : Z := Z.lxor (Z.lxor (rotr 2 x) (rotr 13 x)) (rotr 22 x).
Definition Sigma1 (x : Z) : Z := Z.lxor (Z.lxor (rotr 6 x) (rotr 11 x)) (rotr 25 x).
Definition sigma0 (x : Z) : Z := Z.lxor (Z.lxor (rotr 7 x) (rotr 18 x)) (Z.shiftr x 3).
Definition sigma1 (x : Z) : Z := Z.lxor (Z.lxor (rotr 17 x) (rotr 19 x)) (Z.shiftr x 10).

(** The first [n] primes, by trial division: [candidate] is the next number
    to try, [found] the primes below it, largest first. *)
Fixpoint primes_from (fuel n : nat) (candidate : Z) (found : list Z) : list Z :=
  match fuel, n with
  | O, _ | _, O => rev found
  | S fuel', S n' =>
      if forallb (fun q => negb (candidate mod q =? 0)) found
      then primes_from fuel' n' (candidate + 1) (candidate :: found)
      else primes_from fuel' n (candidate + 1) found
  end.

Definition primes (n : nat) : list Z := primes_from 400 n 2 [].

(** Integer cube root of a number below 2^108, one bit at a time. *)
Fixpoint cbrt_bits (bits : nat) (x r : Z) : Z :=
  match bits with
  | O => r
  | S b =>
      let r' := r + 2 ^ Z.of_nat b in
      cbrt_bits b x (if r' * r' * r' <=? x then r' else r)
  end.

Definition cbrt (x : Z) : Z := cbrt_bits 36 x 0.

(** Round constants: the first 32 bits of the fractional parts of the cube
    roots of the first 64 primes. *)
Definition K : list Z := map (fun q => w32 (cbrt (q * 2 ^ 96))) (primes 64).

(** Initial hash value: the first 32 bits of the fractional parts of the
    square roots of the first 8 primes. *)
Definition H0 : list Z := map (fun q => w32 (Z.sqrt (q * 2 ^ 64))) (primes 8).

(** Padding: a 1 bit, zero bits up to 56 mod 64 bytes, the bit length on 8 bytes. *)
Definition pad (msg : list Z) : list Z :=
  let len := Z.of_nat (length msg) in
  msg ++ [0x80] ++ replicate (Z.to_nat ((55 - len) mod 64)) 0 ++ Bytes.be 8 (8 * len).

(** The message schedule, most recent word first: [rev_ws] holds W(t-1), W(t-2), ... *)
Fixpoint extend (n : nat) (rev_ws : list Z) : list Z :=
  match n with
  | O => rev_ws
  | S k =>
      let w i := nth i rev_ws 0 in
      extend k (add32 (add32 (sigma1 (w 1%nat)) (w 6%nat))
                      (add32 (sigma0 (w 14%nat)) (w 15%nat)) :: rev_ws)
  end.

Definition schedule (block : list Z) : list Z :=
  rev (extend 48 (rev (map Bytes.of_be (Bytes.chunks 16 4 block)))).

Definition round (s : list Z) (kw : Z * Z) : list Z :=
  match s with
  | [a; b; c; d; e; f; g; h] =>
      let T1 := add32 (add32 (add32 h (Sigma1 e)) (add32 (Ch e f g) kw.1)) kw.2 in
      let T2 := add32 (Sigma0 a) (Maj a b c) in
      [add32 T1 T2; a; b; c; add32 d T1; e; f; g]
  | _ => s
  end.

Definition compress (h : list Z) (block : list Z) : list Z :=
  zip_with add32 h (fold_left round (zip K (schedule block)) h).

Definition digest (msg : list Z) : list Z :=
  let padded := pad msg in
  let blocks := Bytes.chunks (length padded) 64 padded in
  concat (map (Bytes.be 4) (fold_left compress blocks H0)).

End SHA256.

Module HMAC.

Definition block_size : nat := 64.

Definition key_block (key : list Z) : list Z :=
  let k := if (block_size <? length key)%nat then SHA256.digest key else key in
  k ++ replicate (block_size - length k) 0.

Definition sha256 (key msg : list Z) : list Z :=
  let k := key_block key in
  SHA256.digest (map (Z.lxor 0x5c) k ++ SHA256.digest (map (Z.lxor 0x36) k ++ msg)).

End HMAC.

(** ** JavaScript values *)

Module JS.

(** The values that reach the client: [undefined] (also an absent
    argument), [null], integral numbers, strings, plain objects with
    string-valued properties (parameter bags and form bodies) and [Error]
    objects. *)
Inductive value :=
| VUndefined
| VNull
| VNumber (n : Z)
| VString (s : string)
| VObject (props : gmap string string)
| VError (name message : string).

(** [Number.prototype.toString] on a safe integer (at most 2^53 - 1 in
    magnitude): its decimal digits.  Every clock reading is one.  Beyond
    the safe integers JavaScript rounds the digits, and from 1e21 on it
    writes an exponent; those numbers are outside what [decimal] covers. *)
Definition decimal (n : Z) : string := NilZero.string_of_int (Z.to_int n).

(** [ToString], as applied by [+] when the other operand is a string. *)
Definition to_string (v : value) : string :=
  match v with
  | VUndefined => "undefined"
  | VNull => "null"
  | VNumber n => decimal n
  | VString s => s
  | VObject _ => "[object Object]"
  | VError name m =>
      if String.eqb name EmptyString then m
      else if String.eqb m EmptyString then name
      else (name +:+ ": ") +:+ m
  end.

(** [ToBoolean], as applied by [if (v)]. *)
Definition truthy (v : value) : bool :=
  match v with
  | VUndefined | VNull => false
  | VNumber n => negb (n =? 0)
  | VString s => negb (String.eqb s EmptyString)
  | VObject _ | VError _ _ => true
  end.

(** [v === 'lit'] for a string literal. *)
Definition strict_eq_str (v : value) (lit : string) : bool :=
  match v with
  | VString s => String.eqb s lit
  | _ => false
  end.

(** A parameter declared [x = d]: the default replaces [undefined] only. *)
Definition default (v d : value) : value :=
  match v with
  | VUndefined => d
  | _ => v
  end.

End JS.
Export JS.

(** ** The runtime: clock, crypto, promises and the HTTP transport *)

Inductive Verb := GET | POST.

(** The [options] object handed to [request.get] / [request.post]. *)
Record Options := {
  headers : gmap string value;
  method : value;
  uri : string;
  form : option value
}.

(** [options['form'] = v] *)
Definition set_form (o : Options) (v : value) : Options :=
  {| headers := headers o; method := method o; uri := uri o; form := Some v |}.

(** A request handed to the transport; [waiter] is the promise its callback
    settles. *)
Record Request := { verb : Verb; opts : Options; waiter : nat }.

Inductive PromiseState :=
| Pending
| Fulfilled (v : value)
| Rejected (e : value).

(** Calls into the runtime, in program order. *)
Inductive Event :=
| EvDate (t : Z)                  (* [new Date().getTime()] returned [t] *)
| EvHmac (key data : string)      (* an HMAC-SHA256 digest of [data] under [key] *)
| EvHttp (rq : Request).          (* [rq] was handed to the transport *)

(** The fields of a client instance. *)
Record Client := { _apiKey : value; _apiSecret : value }.

Record World := {
  self : Client;                  (* the receiver, [this] *)
  clock : nat -> Z;               (* the k-th reading of the system clock *)
  reads : nat;                    (* readings taken so far *)
  promises : list PromiseState;   (* promises, in order of creation *)
  inflight : list Request;        (* requests the transport has not answered *)
  log : list Event
}.

Definition set_self (c : Client) (w : World) : World :=
  {| self := c; clock := clock w; reads := reads w;
     promises := promises w; inflight := inflight w; log := log w |}.

Definition tick (w : World) : World :=
  {| self := self w; clock := clock w; reads := S (reads w);
     promises := promises w; inflight := inflight w; log := log w |}.

Definition set_promises (ps : list PromiseState) (w : World) : World :=
  {| self := self w; clock := clock w; reads := reads w;
     promises := ps; inflight := inflight w; log := log w |}.

Definition set_inflight (rs : list Request) (w : World) : World :=
  {| self := self w; clock := clock w; reads := reads w;
     promises := promises w; inflight := rs; log := log w |}.

Definition emit (e : Event) (w : World) : World :=
  {| self := self w; clock := clock w; reads := reads w;
     promises := promises w; inflight := inflight w; log := log w ++ [e] |}.

(** *** Computations: state passing with exceptions *)

Inductive Completion (A : Type) :=
| Normal (a : A)
| Throw (e : value).
Arguments Normal {A} a.
Arguments Throw {A} e.

Definition M (A : Type) : Type := World -> Completion A * World.

Definition ret {A} (a : A) : M A := fun w => (Normal a, w).
Definition throw {A} (e : value) : M A := fun w => (Throw e, w).
Definition bind {A B} (m : M A) (k : A -> M B) : M B :=
  fun w => match m w with
           | (Normal a, w') => k a w'
           | (Throw e, w') => (Throw e, w')
           end.
Definition gets {A} (f : World -> A) : M A := fun w => (Normal (f w), w).
Definition modify (f : World -> World) : M unit := fun w => (Normal tt, f w).

Notation "x <- m ;; k" := (bind m (fun x => k))
  (at level 100, m at next level, right associativity).
Notation "m ;;; k" := (bind m (fun _ => k))
  (at level 100, right associativity).

(** Requests handed to the transport, and runtime calls made, between two
    worlds. *)
Definition issued (w w' : World) : list Request :=
  drop (length (inflight w)) (inflight w').
Definition logged (w w' : World) : list Event :=
  drop (length (log w)) (log w').

Module Date.
(** [new Date().getTime()] *)
Definition getTime : M Z :=
  t <- gets (fun w => clock w (reads w)) ;;
  modify tick ;;;
  modify (emit (EvDate t)) ;;;
  ret t.
End Date.

Module Buffer.
(** [new Buffer(str)]: the UTF-8 bytes of [str], a well-formed string. *)
Definition from (str : string) : list Z := Bytes.of_string str.
(** [buf.toString('base64')] *)
Definition toBase64 (buf : list Z) : string := Base64.encode buf.
End Buffer.

Module crypto.

Record Hmac := { hkey : string; hdata : string }.

(** [crypto.createHmac('sha256', key)]: a key that is neither a string nor
    a buffer is a [TypeError]. *)
Definition createHmac (key : value) : M Hmac :=
  match key with
  | VString k => ret {| hkey := k; hdata := EmptyString |}
  | _ => throw (VError "TypeError" "invalid key")
  end.

(** [hmac.update(data)] *)
Definition update (h : Hmac) (data : string) : Hmac :=
  {| hkey := hkey h; hdata := hdata h +:+ data |}.

Definition mac (key data : string) : string :=
  Bytes.hex (HMAC.sha256 (Bytes.of_string key) (Bytes.of_string data)).

(** [hmac.digest('hex')] *)
Definition digest (h : Hmac) : M string :=
  modify (emit (EvHmac (hkey h) (hdata h))) ;;;
  ret (mac (hkey h) (hdata h)).

End crypto.

Module Promise.

(** [resolve] and [reject] settle a pending promise and are ignored
    afterwards. *)
Definition settle (p : nat) (s : PromiseState) : M unit :=
  modify (fun w =>
    match promises w !! p with
    | Some Pending => set_promises (<[p := s]> (promises w)) w
    | _ => w
    end).
Definition resolve (p : nat) (v : value) : M unit := settle p (Fulfilled v).
Definition reject (p : nat) (e : value) : M unit := settle p (Rejected e).

(** [new Promise(executor)]: the executor runs at once, on the new promise;
    an exception it throws rejects the promise. *)
Definition new (executor : nat -> M unit) : M nat :=
  p <- gets (fun w => length (promises w)) ;;
  modify (fun w => set_promises (promises w ++ [Pending]) w) ;;;
  (fun w => match executor p w with
            | (Normal _, w') => (Normal p, w')
            | (Throw e, w') => (reject p e ;;; ret p) w'
            end).

Definition state (p : nat) (w : World) : option PromiseState := promises w !! p.

End Promise.

Module request.

(** [request.get(options, callback)] and [request.post(options, callback)]
    hand the request to the transport and return; the callback runs when
    the transport answers.  The callback is identified by the promise it
    settles. *)
Definition send (v : Verb) (options : Options) (p : nat) : M unit :=
  let rq := {| verb := v; opts := options; waiter := p |} in
  modify (fun w => set_inflight (inflight w ++ [rq]) w) ;;;
  modify (emit (EvHttp rq)).
Definition get := send GET.
Definition post := send POST.

(** What the transport reports for a request: a failure before any response
    was read (DNS, refused connection, timeout, TLS), or a completed
    exchange with its status code and body. *)
Inductive Reply :=
| NetFail (reason : string)
| NetDone (status : Z) (body : string).

(** The arguments [(err, resp, body)] the transport calls back with. *)
Definition callback_args (r : Reply) : value * value * value :=
  match r with
  | NetFail reason => (VError "Error" reason, VUndefined, VUndefined)
  | NetDone status body =>
      (VNull, VObject {[ "statusCode" := decimal status ]}, VString body)
  end.

End request.
Export request(Reply, NetFail, NetDone).

(** [obj.name]: reading a property of [undefined] or [null] throws; a
    property that is not there reads as [undefined]. *)
Definition prop (obj : value) (name : string) : M value :=
  match obj with
  | VObject m =>
      ret (match m !! name with Some s => VString s | None => VUndefined end)
  | VUndefined | VNull => throw (VError "TypeError" "cannot read property")
  | _ => ret VUndefined
  end.

(** ** The class [CryptorgApi] *)

Module CryptorgApi.

Definition apiUrl : string := "https://api.cryptorg.net/".

Definition constructor (key secret : value) : M unit :=
  modify (fun w => set_self {| _apiKey := key; _apiSecret := _apiSecret (self w) |} w) ;;;
  modify (fun w => set_self {| _apiKey := _apiKey (self w); _apiSecret := secret |} w).

(** [new CryptorgApi(key, secret)]: the constructor runs on a fresh object. *)
Definition new (key secret : value) : M unit :=
  modify (set_self {| _apiKey := VUndefined; _apiSecret := VUndefined |}) ;;;
  constructor key secret.

(** [path + '/' + nonce + '/' + queryString] *)
Definition strForSign (path queryString nonce : value) : string :=
  (((to_string path +:+ "/") +:+ to_string nonce) +:+ "/") +:+ to_string queryString.

Definition getSignature (path queryString nonce : value) : M string :=
  let strForSign := strForSign path queryString nonce in
  let signatureStr := Buffer.toBase64 (Buffer.from strForSign) in
  secret <- gets (fun w => _apiSecret (self w)) ;;
  h <- crypto.createHmac secret ;;
  crypto.digest (crypto.update h signatureStr).

(** [function(err, resp, body) { if (err) reject(err); else resolve(body); }]
    for the promise [p]. *)
Definition callback (p : nat) (err resp body : value) : M unit :=
  if truthy err then Promise.reject p err else Promise.resolve p body.

Definition sendRequest (method url query params : value) : M nat :=
  let query := default query VNull in
  let params := default params VNull in
  nonce <- Date.getTime ;;
  hash <- getSignature url query (VNumber nonce) ;;
  apiKey <- gets (fun w => _apiKey (self w)) ;;
  let header : gmap string value :=
    <[ "CTG-API-NONCE" := VNumber nonce ]>
    (<[ "CTG-API-KEY" := apiKey ]>
    (<[ "CTG-API-SIGNATURE" := VString hash ]> ∅)) in
  let options :=
    {| headers := header;
       method := method;
       uri := ((apiUrl +:+ to_string url) +:+ "?") +:+ to_string query;
       form := None |} in
  Promise.new (fun p =>
    if strict_eq_str method "GET" then
      request.get options p
    else if strict_eq_str method "POST" then
      request.post (set_form options params) p
    else ret tt).

Definition status : M nat :=
  sendRequest (VString "GET") (VString "api/status") VUndefined VUndefined.

Definition botList : M nat :=
  sendRequest (VString "GET") (VString "bot/all") VUndefined VUndefined.

Definition botInfo (params : value) : M nat :=
  botId <- prop params "botId" ;;
  let query := "botId=" +:+ to_string botId in
  sendRequest (VString "GET") (VString "bot/info") (VString query) VUndefined.

Definition createBot (params attributes : value) : M nat :=
  pair <- prop params "pair" ;;
  exchange <- prop params "exchange" ;;
  let query := (("pair=" +:+ to_string pair) +:+ "&exchange=") +:+ to_string exchange in
  sendRequest (VString "POST") (VString "bot/create") (VString query) attributes.

Definition deleteBot (params : value) : M nat :=
  botId <- prop params "botId" ;;
  let query := "botId=" +:+ to_string botId in
  sendRequest (VString "GET") (VString "bot/delete") (VString query) VUndefined.

Definition createPreset (params attributes : value) : M nat :=
  pair <- prop params "pair" ;;
  exchange <- prop params "exchange" ;;
  let query := (("pair=" +:+ to_string pair) +:+ "&exchange=") +:+ to_string exchange in
  sendRequest (VString "POST") (VString "bot/create-preset") (VString query) attributes.

Definition updateBot (params attributes : value) : M nat :=
  botId <- prop params "botId" ;;
  pair <- prop params "pair" ;;
  let query := (("botId=" +:+ to_string botId) +:+ "&pair=") +:+ to_string pair in
  sendRequest (VString "POST") (VString "bot/configure") (VString query) attributes.

Definition activateBot (params : value) : M nat :=
  botId <- prop params "botId" ;;
  let query := "botId=" +:+ to_string botId in
  sendRequest (VString "GET") (VString "bot/activate") (VString query) VUndefined.

Definition deactivateBot (params : value) : M nat :=
  botId <- prop params "botId" ;;
  let query := "botId=" +:+ to_string botId in
  sendRequest (VString "GET") (VString "bot/deactivate") (VString query) VUndefined.

Definition startBotForce (params : value) : M nat :=
  botId <- prop params "botId" ;;
  let query := "botId=" +:+ to_string botId in
  sendRequest (VString "GET") (VString "bot/start-force") (VString query) VUndefined.

Definition getBotLogs (params : value) : M nat :=
  botId <- prop params "botId" ;;
  let query := "botId=" +:+ to_string botId in
  sendRequest (VString "GET") (VString "bot/logs") (VString query) VUndefined.

Definition freezeDeal (params : value) : M nat :=
  dealId <- prop params "dealId" ;;
  let query := "dealId=" +:+ to_string dealId in
  sendRequest (VString "GET") (VString "deal/freeze") (VString query) VUndefined.

Definition unfreezeDeal (params : value) : M nat :=
  dealId <- prop params "dealId" ;;
  let query := "dealId=" +:+ to_string dealId in
  sendRequest (VString "GET") (VString "deal/unfreeze") (VString query) VUndefined.

Definition updateTakeProfit (params : value) : M nat :=
  dealId <- prop params "dealId" ;;
  let query := "dealId=" +:+ to_string dealId in
  sendRequest (VString "GET") (VString "deal/update-take-profit") (VString query) VUndefined.

Definition cancelDeal (params : value) : M nat :=
  dealId <- prop params "dealId" ;;
  let query := "dealId=" +:+ to_string dealId in
  sendRequest (VString "GET") (VString "deal/cancel") (VString query) VUndefined.

Definition dealInfo (params : value) : M nat :=
  dealId <- prop params "dealId" ;;
  let query := "dealId=" +:+ to_string dealId in
  sendRequest (VString "GET") (VString "deal/info") (VString query) VUndefined.

Definition getAnalytics (params attributes : value) : M nat :=
  start <- prop params "start" ;;
  end' <- prop params "end" ;;
  let query := (("start=" +:+ to_string start) +:+ "&end=") +:+ to_string end' in
  sendRequest (VString "POST") (VString "analytics/get") (VString query) attributes.

End CryptorgApi.
Import CryptorgApi.

(** ** The transport answering requests *)

Module Transport.

(** The transport answers the request whose callback settles promise [p]
    with [r]: the request leaves the queue and its callback runs.  Without
    such a request in flight nothing happens. *)
Definition deliver (p : nat) (r : Reply) : M unit :=
  fun w =>
    match filter (fun rq => waiter rq = p) (inflight w) with
    | [] => (Normal tt, w)
    | _ :: _ =>
        let '(err, resp, body) := request.callback_args r in
        (modify (fun w => set_inflight (filter (fun rq => waiter rq <> p) (inflight w)) w) ;;;
         callback p err resp body) w
    end.

End Transport.

(** ** Scenarios: dispatches interleaved with answers of the transport *)

Inductive Action :=
| Dispatch (method url query params : value)
| Answer (p : nat) (r : Reply).

Definition step (w : World) (a : Action) : World :=
  match a with
  | Dispatch method url query params => (sendRequest method url query params w).2
  | Answer p r => (Transport.deliver p r w).2
  end.

Definition steps (acts : list Action) (w : World) : World := fold_left step acts w.

(** Every request in flight waits for a promise that exists. *)
Definition well_formed (w : World) : Prop :=
  Forall (fun rq => (waiter rq < length (promises w))%nat) (inflight w).

(** ** The signature as the interface documents it *)

(** [hex(HMAC_SHA256(secret, base64(path + "/" + nonce + "/" + query)))] *)
Definition spec_signature (secret path query : string) (nonce : Z) : string :=
  Bytes.hex
    (HMAC.sha256 (Bytes.of_string secret)
       (Bytes.of_string
          (Base64.encode
             (Bytes.of_string (path +:+ "/" +:+ decimal nonce +:+ "/" +:+ query))))).

(** A world to run examples in: a client holding [key] and [secret], a clock
    that starts at [t0] and advances one millisecond per reading. *)
Definition world0 (key secret : value) (t0 : Z) : World :=
  {| self := {| _apiKey := key; _apiSecret := secret |};
     clock := fun k => t0 + Z.of_nat k; reads := 0;
     promises := []; inflight := []; log := [] |}.

(** ** Vocabulary of the properties *)

(** The base64 text that is signed for a path, query and nonce. *)
Definition signed_text (url query : value) (t : Z) : string :=
  Base64.encode (Bytes.of_string (strForSign url query (VNumber t))).

(** The [options] object [sendRequest] builds. *)
Definition options_of (w : World) (secret : string) (method url query : value) : Options :=
  let t := clock w (reads w) in
  {| headers :=
       <[ "CTG-API-NONCE" := VNumber t ]>
       (<[ "CTG-API-KEY" := _apiKey (self w) ]>
       (<[ "CTG-API-SIGNATURE" := VString (crypto.mac secret (signed_text url query t)) ]> ∅));
     method := method;
     uri := ((apiUrl +:+ to_string url) +:+ "?") +:+ to_string query;
     form := None |}.

(** The requests [sendRequest] hands to the transport. *)
Definition requests_of (w : World) (secret : string) (method url query params : value)
  : list Request :=
  let options := options_of w secret method url query in
  let p := length (promises w) in
  if strict_eq_str method "GET" then
    [ {| verb := GET; opts := options; waiter := p |} ]
  else if strict_eq_str method "POST" then
    [ {| verb := POST; opts := set_form options params; waiter := p |} ]
  else [].

(** A world to state examples in: key and secret are strings and the clock
    shows 1700000000000. *)
Definition example_world : World :=
  world0 (VString "key") (VString "shh") 1700000000000.

(** The request [botInfo({botId: 42})] issues in [example_world]. *)
Definition example_get : Request :=
  {| verb := GET;
     opts := options_of example_world "shh" (VString "GET") (VString "bot/info")
               (VString "botId=42");
     waiter := 0 |}.

(** The request [createBot] issues in [example_world] for the pair BTC_USDT
    on binance, with one attribute. *)
Definition example_post : Request :=
  {| verb := POST;
     opts := set_form
               (options_of example_world "shh" (VString "POST") (VString "bot/create")
                  (VString "pair=BTC_USDT&exchange=binance"))
               (VObject {[ "name" := "first" ]});
     waiter := 0 |}.

(** The request [status()] issues in [example_world]. *)
Definition example_status : Request :=
  {| verb := GET;
     opts := options_of example_world "shh" (VString "GET") (VString "api/status") VNull;
     waiter := 0 |}.

(** What the callback makes of an answer of the transport. *)
Definition outcome (r : Reply) : PromiseState :=
  match r with
  | NetFail reason => Rejected (VError "Error" reason)
  | NetDone _ body => Fulfilled (VString body)
  end.

(** [a] is an answer to the request that waits for promise [p]. *)
Definition answers (p : nat) (a : Action) : Prop :=
  match a with
  | Answer p' _ => p' = p
  | Dispatch _ _ _ _ => False
  end.



(** ** The endpoint methods as a family *)

Inductive Endpoint :=
| Status | BotList | BotInfo | DeleteBot | CreateBot | CreatePreset | UpdateBot
| ActivateBot | DeactivateBot | StartBotForce | GetBotLogs
| FreezeDeal | UnfreezeDeal | UpdateTakeProfit | CancelDeal | DealInfo
| GetAnalytics.

(** Calling the method of an endpoint; a method is given the arguments it
    declares. *)
Definition invoke (e : Endpoint) (params attributes : value) : M nat :=
  match e with
  | Status => status
  | BotList => botList
  | BotInfo => botInfo params
  | DeleteBot => deleteBot params
  | CreateBot => createBot params attributes
  | CreatePreset => createPreset params attributes
  | UpdateBot => updateBot params attributes
  | ActivateBot => activateBot params
  | DeactivateBot => deactivateBot params
  | StartBotForce => startBotForce params
  | GetBotLogs => getBotLogs params
  | FreezeDeal => freezeDeal params
  | UnfreezeDeal => unfreezeDeal params
  | UpdateTakeProfit => updateTakeProfit params
  | CancelDeal => cancelDeal params
  | DealInfo => dealInfo params
  | GetAnalytics => getAnalytics params attributes
  end.

(** The verb, the path and the parameter names of each endpoint, for the
    statements to compare the methods with. *)
Definition endpoint_verb (e : Endpoint) : Verb :=
  match e with
  | CreateBot | CreatePreset | UpdateBot | GetAnalytics => POST
  | _ => GET
  end.

Definition endpoint_path (e : Endpoint) : string :=
  match e with
  | Status => "api/status"
  | BotList => "bot/all"
  | BotInfo => "bot/info"
  | DeleteBot => "bot/delete"
  | CreateBot => "bot/create"
  | CreatePreset => "bot/create-preset"
  | UpdateBot => "bot/configure"
  | ActivateBot => "bot/activate"
  | DeactivateBot => "bot/deactivate"
  | StartBotForce => "bot/start-force"
  | GetBotLogs => "bot/logs"
  | FreezeDeal => "deal/freeze"
  | UnfreezeDeal => "deal/unfreeze"
  | UpdateTakeProfit => "deal/update-take-profit"
  | CancelDeal => "deal/cancel"
  | DealInfo => "deal/info"
  | GetAnalytics => "analytics/get"
  end.

Definition endpoint_keys (e : Endpoint) : list string :=
  match e with
  | Status | BotList => []
  | BotInfo | DeleteBot | ActivateBot | DeactivateBot | StartBotForce | GetBotLogs =>
      ["botId"]
  | FreezeDeal | UnfreezeDeal | UpdateTakeProfit | CancelDeal | DealInfo =>
      ["dealId"]
  | CreateBot | CreatePreset => ["pair"; "exchange"]
  | UpdateBot => ["botId"; "pair"]
  | GetAnalytics => ["start"; "end"]
  end.

Definition verb_name (v : Verb) : string :=
  match v with
  | GET => "GET"
  | POST => "POST"
  end.

(** [params.k] on a parameter object. *)
Definition field (m : gmap string string) (k : string) : value :=
  match m !! k with
  | Some s => VString s
  | None => VUndefined
  end.

(** [k1=v1&k2=v2...], each value as the object has it. *)
Definition query_of (keys : list string) (m : gmap string string) : string :=
  String.concat "&" (map (fun k => (k +:+ "=") +:+ to_string (field m k)) keys).

(** The query argument an endpoint passes on: none without parameter names. *)
Definition endpoint_query (e : Endpoint) (m : gmap string string) : value :=
  match endpoint_keys e with
  | [] => VUndefined
  | keys => VString (query_of keys m)
  end.

(** The body argument an endpoint passes on: only POST endpoints have one. *)
Definition endpoint_body (e : Endpoint) (attributes : value) : value :=
  match endpoint_verb e with
  | GET => VUndefined
  | POST => attributes
  end.

(** No two requests in flight wait for the same promise, and each waits for
    a pending one. *)
Definition consistent (w : World) : Prop :=
  NoDup (waiter <$> inflight w)
  /\ forall rq, rq ∈ inflight w -> promises w !! waiter rq = Some Pending.

(** A world whose clock shows the same millisecond at every reading. *)
Definition frozen_world (key secret : value) (t : Z) : World :=
  {| self := {| _apiKey := key; _apiSecret := secret |};
     clock := fun _ => t; reads := 0;
     promises := []; inflight := []; log := [] |}.

(** The position of a character in a string, counted from [i]. *)
Fixpoint index_in (s : string) (c : ascii) (i : Z) : option Z :=
  match s with
  | EmptyString => None
  | String a r => if Ascii.eqb a c then Some i else index_in r c (i + 1)
  end.

(** [Number.isSafeInteger]: the integers a JavaScript number holds exactly
    and writes in plain decimal digits. *)
Definition safe_integer (n : Z) : Prop := - (2 ^ 53 - 1) <= n <= 2 ^ 53 - 1.

Definition is_lower_hex (c : ascii) : bool :=
  existsb (Ascii.eqb c) (list_ascii_of_string "0123456789abcdef").

Definition byte (b : Z) : Prop := 0 <= b < 256.

(** * Properties *)

(** ** The primitives against their test vectors *)

Example sha256_constants :
  take 4 SHA256.K = [0x428a2f98; 0x71374491; 0xb5c0fbcf; 0xe9b5dba5]
  /\ last SHA256.K = Some 0xc67178f2
  /\ take 2 SHA256.H0 = [0x6a09e667; 0xbb67ae85]
  /\ last SHA256.H0 = Some 0x5be0cd19
  /\ (length SHA256.K, length SHA256.H0) = (64%nat, 8%nat).
Proof. vm_compute. repeat split. Qed.

Example sha256_abc :
  Bytes.hex (SHA256.digest (Bytes.of_string "abc"))
  = "ba7816bf8f01cfea414140de5dae2223b00361a396177a9cb410ff61f20015ad"%string.
Proof. vm_compute. reflexivity. Qed.

Example sha256_two_blocks :
  Bytes.hex (SHA256.digest
    (Bytes.of_string "abcdbcdecdefdefgefghfghighijhijkijkljklmklmnlmnomnopnopq"))
  = "248d6a61d20638b8e5c026930c3e6039a33ce45964ff2167f6ecedd419db06c1"%string.
Proof. vm_compute. reflexivity. Qed.

Example hmac_rfc4231_case2 :
  Bytes.hex (HMAC.sha256 (Bytes.of_string "Jefe")
                         (Bytes.of_string "what do ya want for nothing?"))
  = "5bdcc146bf60754e6a042426089575c75a003f089d2739839dec58b964ec3843"%string.
Proof. vm_compute. reflexivity. Qed.

Example hmac_rfc4231_case6 :
  Bytes.hex (HMAC.sha256 (replicate 131 0xaa)
    (Bytes.of_string "Test Using Larger Than Block-Size Key - Hash Key First"))
  = "60e431591ee0b67f0d8a26aacbf5b77f8e0bc6213728c5140546040f0ee37f54"%string.
Proof. vm_compute. reflexivity. Qed.

Example base64_rfc4648 :
  map (fun s => Base64.encode (Bytes.of_string s))
      [EmptyString ; "f"; "fo"; "foo"; "foob"; "fooba"; "foobar"]%string
  = [EmptyString ; "Zg=="; "Zm8="; "Zm9v"; "Zm9vYg=="; "Zm9vYmE="; "Zm9vYmFy"]%string.
Proof. vm_compute. reflexivity. Qed.

(** ** What one call does to the world *)

Lemma getSignature_string path queryString nonce w secret :
  _apiSecret (self w) = VString secret ->
  getSignature path queryString nonce w =
    let text := Base64.encode (Bytes.of_string (strForSign path queryString nonce)) in
    (Normal (crypto.mac secret text), emit (EvHmac secret text) w).
Proof.
  intros Hs. unfold getSignature, bind, gets. rewrite Hs. reflexivity.
Qed.

Lemma getSignature_not_string path queryString nonce w :
  (forall s, _apiSecret (self w) <> VString s) ->
  getSignature path queryString nonce w = (Throw (VError "TypeError" "invalid key"), w).
Proof.
  intros Hs. unfold getSignature, bind, gets.
  destruct (_apiSecret (self w)) eqn:E; try reflexivity.
  exfalso. eapply Hs. reflexivity.
Qed.

Lemma sendRequest_normal method url query params w secret :
  _apiSecret (self w) = VString secret ->
  let t := clock w (reads w) in
  let q := default query VNull in
  let rqs := requests_of w secret method url q (default params VNull) in
  sendRequest method url query params w =
    (Normal (length (promises w)),
     {| self := self w; clock := clock w; reads := S (reads w);
        promises := promises w ++ [Pending];
        inflight := inflight w ++ rqs;
        log := log w ++ [EvDate t; EvHmac secret (signed_text url q t)] ++ map EvHttp rqs |}).
Proof.
  intros Hs t q rqs. subst rqs. unfold sendRequest, bind at 1.
  change (Date.getTime w) with (Normal t, emit (EvDate t) (tick w)).
  unfold bind at 1. rewrite (getSignature_string _ _ _ _ secret) by exact Hs.
  cbn zeta. fold (signed_text url q t).
  unfold requests_of, options_of, Promise.new, bind, gets, modify, ret.
  destruct (strict_eq_str method "GET"); [|destruct (strict_eq_str method "POST")];
    unfold request.get, request.post, request.send, bind, modify;
    unfold emit, tick, set_promises, set_inflight, signed_text;
    cbn [self clock reads promises inflight log map];
    rewrite ?app_nil_r, <- ?app_assoc; reflexivity.
Qed.

Lemma sendRequest_throw method url query params w :
  (forall s, _apiSecret (self w) <> VString s) ->
  sendRequest method url query params w =
    (Throw (VError "TypeError" "invalid key"),
     emit (EvDate (clock w (reads w))) (tick w)).
Proof.
  intros Hs. unfold sendRequest, bind at 1.
  change (Date.getTime w) with (Normal (clock w (reads w)), emit (EvDate (clock w (reads w))) (tick w)).
  unfold bind at 1. rewrite getSignature_not_string by exact Hs. reflexivity.
Qed.

Lemma secret_string_dec (v : value) :
  {s | v = VString s} + {forall s, v <> VString s}.
Proof.
  destruct v; try (right; intros s' E; discriminate E).
  left. eexists. reflexivity.
Qed.

(** ** Strings *)

Lemma append_cons (a : ascii) (s t : string) : String a s +:+ t = String a (s +:+ t).
Proof. reflexivity. Qed.

Lemma append_assoc (s t u : string) : (s +:+ t) +:+ u = s +:+ (t +:+ u).
Proof.
  induction s as [|a s IH].
  - reflexivity.
  - rewrite !append_cons, IH. reflexivity.
Qed.

(** ** The signature *)

Example golden_fixture :
  (getSignature (VString "bot/info") (VString "botId=42") (VNumber 1700000000000)
     (world0 (VString "key") (VString "shh") 0)).1
  = Normal "18541cedb5916a3ad812349e27d93305ea5a7601801732d1c49c1accc0c77fd8"
  /\ spec_signature "shh" "bot/info" "botId=42" 1700000000000
     = "18541cedb5916a3ad812349e27d93305ea5a7601801732d1c49c1accc0c77fd8".
Proof. split; vm_compute; reflexivity. Qed.

(** C1. For every path string, query string and integer nonce that is a
    safe integer (as every clock reading is, so that the number is written
    in its decimal digits), on a client whose secret is the string [secret],
    [getSignature path query nonce] returns the lowercase hex encoding of
    HMAC-SHA256, keyed by [secret], of the base64 encoding of
    [path + "/" + nonce + "/" + query]. *)
Theorem getSignature_is_spec_signature
    (w : World) (secret path query : string) (nonce : Z) :
  _apiSecret (self w) = VString secret ->
  safe_integer nonce ->
  (getSignature (VString path) (VString query) (VNumber nonce) w).1
  = Normal (spec_signature secret path query nonce).
Proof.
  intros Hs _. rewrite (getSignature_string _ _ _ _ secret Hs). cbn [fst].
  unfold spec_signature, crypto.mac, strForSign. cbn [to_string].
  rewrite !append_assoc. reflexivity.
Qed.

Lemma getSignature_is_spec_signature_witness :
  _apiSecret (self (world0 (VString "key") (VString "shh") 0)) = VString "shh"
  /\ safe_integer 1700000000000
  /\ (getSignature (VString "bot/info") (VString "botId=42") (VNumber 1700000000000)
        (world0 (VString "key") (VString "shh") 0)).1
     = Normal (spec_signature "shh" "bot/info" "botId=42" 1700000000000).
Proof.
  assert (Hn : safe_integer 1700000000000) by (unfold safe_integer; lia).
  split; [reflexivity|]. split; [exact Hn|].
  apply (getSignature_is_spec_signature
           (world0 (VString "key") (VString "shh") 0) "shh" "bot/info" "botId=42");
    [reflexivity | exact Hn].
Defined.

(** C4. With the secret fixed, two calls of [getSignature] on the same path,
    query and nonce return the same result, whatever else differs between
    the two moments; a call leaves the client's fields, the promises, the
    request queue and the clock as they were, so a second call right after
    the first returns the same again. *)
Theorem getSignature_deterministic (w w' : World) (path query nonce : value) :
  _apiSecret (self w) = _apiSecret (self w') ->
  (getSignature path query nonce w).1 = (getSignature path query nonce w').1
  /\ (let w1 := (getSignature path query nonce w).2 in
      self w1 = self w /\ promises w1 = promises w /\ inflight w1 = inflight w
      /\ reads w1 = reads w
      /\ (getSignature path query nonce w1).1 = (getSignature path query nonce w).1).
Proof.
  intros Hs.
  destruct (secret_string_dec (_apiSecret (self w))) as [[s E]|N].
  - assert (E' : _apiSecret (self w') = VString s) by congruence.
    rewrite (getSignature_string _ _ _ w s E), (getSignature_string _ _ _ w' s E').
    cbn [fst snd]. repeat split.
    rewrite (getSignature_string path query nonce (emit _ w) s E). reflexivity.
  - assert (N' : forall s, _apiSecret (self w') <> VString s)
      by (intros s; rewrite <- Hs; apply N).
    rewrite (getSignature_not_string _ _ _ w N), (getSignature_not_string _ _ _ w' N').
    cbn [fst snd]. repeat split.
    rewrite (getSignature_not_string path query nonce w N). reflexivity.
Qed.

Lemma getSignature_deterministic_witness :
  _apiSecret (self (world0 (VString "key") (VString "shh") 0))
  = _apiSecret (self (world0 (VString "other key") (VString "shh") 1700000000000))
  /\ (getSignature (VString "bot/info") (VString "botId=42") (VNumber 7)
        (world0 (VString "key") (VString "shh") 0)).1
     = (getSignature (VString "bot/info") (VString "botId=42") (VNumber 7)
          (world0 (VString "other key") (VString "shh") 1700000000000)).1.
Proof.
  split; [reflexivity|].
  apply (getSignature_deterministic
           (world0 (VString "key") (VString "shh") 0)
           (world0 (VString "other key") (VString "shh") 1700000000000)
           (VString "bot/info") (VString "botId=42") (VNumber 7)).
  reflexivity.
Defined.

(** ** Construction *)

(** C9, as the client is written: construction never fails and validates
    nothing; whatever key and secret are given, missing and empty ones
    included, both are stored as they are, and nothing else changes: no clock
    reading, no promise, no request. *)
Theorem constructor_stores_credentials (key secret : value) (w : World) :
  constructor key secret w
  = (Normal tt, set_self {| _apiKey := key; _apiSecret := secret |} w)
  /\ CryptorgApi.new key secret w
     = (Normal tt, set_self {| _apiKey := key; _apiSecret := secret |} w).
Proof. split; reflexivity. Qed.

(** C9 fails: a client is constructed without a key and with an empty
    secret, and it dispatches: [status()] hands a request to the transport
    whose CTG-API-KEY header is [undefined]. *)
Lemma constructor_accepts_missing_credentials :
  CryptorgApi.new VUndefined (VString EmptyString) (world0 VNull VNull 0)
  = (Normal tt, world0 VUndefined (VString EmptyString) 0)
  /\ map (fun rq => (uri (opts rq), headers (opts rq) !! "CTG-API-KEY"))
       (issued (world0 VUndefined (VString EmptyString) 0)
          (status (world0 VUndefined (VString EmptyString) 0)).2)
     = [("https://api.cryptorg.net/api/status?null", Some VUndefined)].
Proof. split; [reflexivity | vm_compute; reflexivity]. Qed.

(** ** The request a dispatch issues *)

Lemma issued_sendRequest w method url query params :
  issued w (sendRequest method url query params w).2
  = match _apiSecret (self w) with
    | VString secret =>
        requests_of w secret method url (default query VNull) (default params VNull)
    | _ => []
    end.
Proof.
  unfold issued.
  destruct (secret_string_dec (_apiSecret (self w))) as [[s E]|N].
  - rewrite (sendRequest_normal _ _ _ _ _ s E), E. cbn [snd inflight].
    apply drop_app_length.
  - rewrite (sendRequest_throw _ _ _ _ _ N). cbn [snd inflight emit tick].
    rewrite drop_all.
    destruct (_apiSecret (self w)); try reflexivity. destruct (N s eq_refl).
Qed.

Lemma logged_sendRequest w method url query params secret :
  _apiSecret (self w) = VString secret ->
  logged w (sendRequest method url query params w).2
  = [EvDate (clock w (reads w));
     EvHmac secret (signed_text url (default query VNull) (clock w (reads w)))]
    ++ map EvHttp (issued w (sendRequest method url query params w).2).
Proof.
  intros E. rewrite issued_sendRequest, E. unfold logged.
  rewrite (sendRequest_normal _ _ _ _ _ secret E). cbn [snd log].
  apply drop_app_length.
Qed.

Lemma strict_eq_str_true (v : value) (lit : string) :
  strict_eq_str v lit = true -> v = VString lit.
Proof.
  destruct v; cbn; try discriminate.
  intros E. apply String.eqb_eq in E. congruence.
Qed.

(** A request of [requests_of] comes from the GET branch or from the POST
    branch. *)
Lemma elem_of_requests_of w secret method url query params (rq : Request) :
  rq ∈ requests_of w secret method url query params ->
  (method = VString "GET"
   /\ rq = {| verb := GET; opts := options_of w secret method url query;
              waiter := length (promises w) |})
  \/ (method = VString "POST"
      /\ rq = {| verb := POST;
                 opts := set_form (options_of w secret method url query) params;
                 waiter := length (promises w) |}).
Proof.
  unfold requests_of.
  destruct (strict_eq_str method "GET") eqn:G;
    [|destruct (strict_eq_str method "POST") eqn:P].
  - intros ->%list_elem_of_singleton. left. split; [|reflexivity].
    apply strict_eq_str_true, G.
  - intros ->%list_elem_of_singleton. right. split; [|reflexivity].
    apply strict_eq_str_true, P.
  - intros H. apply not_elem_of_nil in H. destruct H.
Qed.

(** Case analysis on an issued request: the secret is a string and the
    request is one of the two above. *)
Ltac issued_cases H :=
  rewrite issued_sendRequest in H;
  match type of H with
  | context [_apiSecret (self ?w)] =>
      let E := fresh "Esecret" in
      destruct (_apiSecret (self w)) as [| | |?secret| |] eqn:E;
      try (apply not_elem_of_nil in H; destruct H);
      apply elem_of_requests_of in H as [[? ->]|[? ->]]
  end.

Lemma headers_options_of w secret method url query :
  let h := headers (options_of w secret method url query) in
  let t := clock w (reads w) in
  h !! "CTG-API-SIGNATURE" = Some (VString (crypto.mac secret (signed_text url query t)))
  /\ h !! "CTG-API-KEY" = Some (_apiKey (self w))
  /\ h !! "CTG-API-NONCE" = Some (VNumber t)
  /\ dom h = {[ "CTG-API-SIGNATURE"; "CTG-API-KEY"; "CTG-API-NONCE" ]}.
Proof.
  cbn [headers options_of]. split; [|split; [|split]].
  - rewrite !lookup_insert_ne by discriminate. apply lookup_insert_eq.
  - rewrite lookup_insert_ne by discriminate. apply lookup_insert_eq.
  - apply lookup_insert_eq.
  - rewrite !dom_insert_L, dom_empty_L. set_solver.
Qed.

Lemma example_get_issued :
  example_get
  ∈ issued example_world
      (sendRequest (VString "GET") (VString "bot/info") (VString "botId=42") VUndefined
         example_world).2.
Proof. rewrite issued_sendRequest. apply list_elem_of_here. Qed.

Lemma example_post_issued :
  example_post
  ∈ issued example_world
      (sendRequest (VString "POST") (VString "bot/create")
         (VString "pair=BTC_USDT&exchange=binance") (VObject {[ "name" := "first" ]})
         example_world).2.
Proof. rewrite issued_sendRequest. apply list_elem_of_here. Qed.

Lemma example_status_issued :
  example_status ∈ issued example_world (status example_world).2.
Proof. unfold status. rewrite issued_sendRequest. apply list_elem_of_here. Qed.

(** The endpoint methods behind the three example requests. *)
Example endpoints_delegate :
  botInfo (VObject {[ "botId" := "42" ]}) example_world
  = sendRequest (VString "GET") (VString "bot/info") (VString "botId=42") VUndefined
      example_world
  /\ createBot (VObject (<[ "pair" := "BTC_USDT" ]> {[ "exchange" := "binance" ]}))
       (VObject {[ "name" := "first" ]}) example_world
     = sendRequest (VString "POST") (VString "bot/create")
         (VString "pair=BTC_USDT&exchange=binance") (VObject {[ "name" := "first" ]})
         example_world
  /\ issued example_world (botList example_world).2
     = requests_of example_world "shh" (VString "GET") (VString "bot/all") VNull VNull.
Proof.
  split; [reflexivity|]. split; [reflexivity|].
  unfold botList. rewrite issued_sendRequest. reflexivity.
Qed.

(** C5. A request issued by [sendRequest] carries exactly three headers:
    CTG-API-SIGNATURE is the signature [getSignature] returns for the url,
    the query and the clock reading [t] of this dispatch, CTG-API-KEY is the
    client's [_apiKey], and CTG-API-NONCE is that same [t]. *)
Theorem issued_headers (w : World) (method url query params : value) (rq : Request) :
  rq ∈ issued w (sendRequest method url query params w).2 ->
  exists hash : string,
    (getSignature url (default query VNull) (VNumber (clock w (reads w))) w).1
    = Normal hash
    /\ headers (opts rq) !! "CTG-API-SIGNATURE" = Some (VString hash)
    /\ headers (opts rq) !! "CTG-API-KEY" = Some (_apiKey (self w))
    /\ headers (opts rq) !! "CTG-API-NONCE" = Some (VNumber (clock w (reads w)))
    /\ dom (headers (opts rq))
       = ({[ "CTG-API-SIGNATURE"; "CTG-API-KEY"; "CTG-API-NONCE" ]} : gset string).
Proof.
  intros H. issued_cases H;
    (eexists; split;
     [ rewrite (getSignature_string _ _ _ _ secret Esecret); reflexivity
     | apply headers_options_of ]).
Qed.

Lemma issued_headers_witness :
  example_get
  ∈ issued example_world
      (sendRequest (VString "GET") (VString "bot/info") (VString "botId=42") VUndefined
         example_world).2
  /\ exists hash : string,
       (getSignature (VString "bot/info") (default (VString "botId=42") VNull)
          (VNumber (clock example_world (reads example_world))) example_world).1
       = Normal hash
       /\ headers (opts example_get) !! "CTG-API-SIGNATURE" = Some (VString hash)
       /\ headers (opts example_get) !! "CTG-API-KEY" = Some (_apiKey (self example_world))
       /\ headers (opts example_get) !! "CTG-API-NONCE"
          = Some (VNumber (clock example_world (reads example_world)))
       /\ dom (headers (opts example_get))
          = ({[ "CTG-API-SIGNATURE"; "CTG-API-KEY"; "CTG-API-NONCE" ]} : gset string).
Proof.
  split; [exact example_get_issued|].
  exact (issued_headers example_world (VString "GET") (VString "bot/info")
           (VString "botId=42") VUndefined example_get example_get_issued).
Defined.

(** C6. A request issued for the method GET goes out through [request.get]
    with the headers, the method and the uri and no [form]; a request issued
    for the method POST goes out through [request.post] with the body as its
    [form].  In both cases the uri is made of the url and the query alone,
    so it is the same whatever the body is. *)
Theorem issued_body (w : World) (method url query params : value) (rq : Request) :
  rq ∈ issued w (sendRequest method url query params w).2 ->
  ((method = VString "GET" /\ verb rq = GET /\ form (opts rq) = None)
   \/ (method = VString "POST" /\ verb rq = POST
       /\ form (opts rq) = Some (default params VNull)))
  /\ uri (opts rq)
     = ((apiUrl +:+ to_string url) +:+ "?") +:+ to_string (default query VNull)
  /\ forall params' : value,
       map (fun r => uri (opts r)) (issued w (sendRequest method url query params' w).2)
       = [uri (opts rq)].
Proof.
  intros H. issued_cases H; subst method.
  - split; [left; repeat split|]. split; [reflexivity|].
    intros params'. rewrite issued_sendRequest, Esecret. reflexivity.
  - split; [right; repeat split|]. split; [reflexivity|].
    intros params'. rewrite issued_sendRequest, Esecret. reflexivity.
Qed.

Lemma issued_body_witness :
  example_post
  ∈ issued example_world
      (sendRequest (VString "POST") (VString "bot/create")
         (VString "pair=BTC_USDT&exchange=binance") (VObject {[ "name" := "first" ]})
         example_world).2
  /\ form (opts example_post) = Some (VObject {[ "name" := "first" ]})
  /\ uri (opts example_post)
     = "https://api.cryptorg.net/bot/create?pair=BTC_USDT&exchange=binance".
Proof.
  split; [exact example_post_issued|].
  destruct (issued_body example_world (VString "POST") (VString "bot/create")
              (VString "pair=BTC_USDT&exchange=binance")
              (VObject {[ "name" := "first" ]}) example_post example_post_issued)
    as [_ [Huri _]].
  split; [reflexivity|]. rewrite Huri. reflexivity.
Defined.

(** A dispatch issues at most one request; when it issues one the secret is
    a string, and the uri ends in the text the query coerces to. *)
Lemma issued_alone w method url query params (rq : Request) :
  rq ∈ issued w (sendRequest method url query params w).2 ->
  uri (opts rq) = ((apiUrl +:+ to_string url) +:+ "?") +:+ to_string (default query VNull)
  /\ exists secret : string,
       _apiSecret (self w) = VString secret
       /\ issued w (sendRequest method url query params w).2 = [rq].
Proof.
  intros H. pose proof (issued_sendRequest w method url query params) as I.
  issued_cases H; subst method; (split; [reflexivity|]);
    exists secret; (split; [reflexivity|]); rewrite I; reflexivity.
Qed.

(** C10. For a request issued by [sendRequest], whatever the query argument
    is, it coerces to one text [q]: the uri is the base url, the url, "?" and
    [q], and the text signed for this request is the base64 of the url, "/",
    the nonce, "/" and the same [q]. *)
Theorem url_query_is_signed_query
    (w : World) (method url query params : value) (rq : Request) :
  rq ∈ issued w (sendRequest method url query params w).2 ->
  exists q secret : string,
    q = to_string (default query VNull)
    /\ uri (opts rq) = ((apiUrl +:+ to_string url) +:+ "?") +:+ q
    /\ logged w (sendRequest method url query params w).2
       = [ EvDate (clock w (reads w));
           EvHmac secret
             (Base64.encode
                (Bytes.of_string
                   ((((to_string url +:+ "/") +:+ decimal (clock w (reads w))) +:+ "/")
                    +:+ q)));
           EvHttp rq ].
Proof.
  intros H. destruct (issued_alone _ _ _ _ _ _ H) as [Huri [secret [Hs Hrq]]].
  exists (to_string (default query VNull)), secret.
  split; [reflexivity|]. split; [exact Huri|].
  rewrite (logged_sendRequest _ _ _ _ _ secret Hs), Hrq. reflexivity.
Qed.

Lemma url_query_is_signed_query_witness :
  example_get
  ∈ issued example_world
      (sendRequest (VString "GET") (VString "bot/info") (VString "botId=42") VUndefined
         example_world).2
  /\ exists q secret : string,
       q = "botId=42"
       /\ uri (opts example_get) = ((apiUrl +:+ "bot/info") +:+ "?") +:+ q
       /\ logged example_world
            (sendRequest (VString "GET") (VString "bot/info") (VString "botId=42")
               VUndefined example_world).2
          = [ EvDate 1700000000000;
              EvHmac secret
                (Base64.encode
                   (Bytes.of_string
                      (((("bot/info" +:+ "/") +:+ decimal 1700000000000) +:+ "/") +:+ q)));
              EvHttp example_get ].
Proof.
  split; [exact example_get_issued|].
  exact (url_query_is_signed_query example_world (VString "GET") (VString "bot/info")
           (VString "botId=42") VUndefined example_get example_get_issued).
Defined.

(** C2, as the client is written: when the query argument is absent or
    null, the uri of an issued request is the base url, the url, "?" and the
    text "null", and the text signed for it has "null" as its query part
    too. *)
Theorem absent_query_is_null
    (w : World) (method url query params : value) (rq : Request) :
  query = VUndefined \/ query = VNull ->
  rq ∈ issued w (sendRequest method url query params w).2 ->
  uri (opts rq) = ((apiUrl +:+ to_string url) +:+ "?") +:+ "null"
  /\ exists secret : string,
       logged w (sendRequest method url query params w).2
       = [ EvDate (clock w (reads w));
           EvHmac secret
             (Base64.encode
                (Bytes.of_string
                   ((((to_string url +:+ "/") +:+ decimal (clock w (reads w))) +:+ "/")
                    +:+ "null")));
           EvHttp rq ].
Proof.
  intros Hq H. destruct (issued_alone _ _ _ _ _ _ H) as [Huri [secret [Hs Hrq]]].
  assert (Hd : default query VNull = VNull) by (destruct Hq; subst; reflexivity).
  rewrite Hd in Huri. split; [exact Huri|]. exists secret.
  rewrite (logged_sendRequest _ _ _ _ _ secret Hs), Hrq, Hd. reflexivity.
Qed.

Lemma absent_query_is_null_witness :
  (VUndefined = VUndefined \/ VUndefined = VNull)
  /\ example_status
     ∈ issued example_world
         (sendRequest (VString "GET") (VString "api/status") VUndefined VUndefined
            example_world).2
  /\ uri (opts example_status) = "https://api.cryptorg.net/api/status?null".
Proof.
  split; [left; reflexivity|]. split; [exact example_status_issued|].
  exact (proj1 (absent_query_is_null example_world (VString "GET") (VString "api/status")
                  VUndefined VUndefined example_status (or_introl eq_refl)
                  example_status_issued)).
Defined.

(** C2 fails: [status()] passes no query; the request goes to
    [api/status?null], not to [api/status?], and the text signed ends in
    [/null]. *)
Lemma null_query_is_sent_as_null :
  map (fun rq => uri (opts rq)) (issued example_world (status example_world).2)
  = ["https://api.cryptorg.net/api/status?null"]
  /\ map (fun rq => uri (opts rq)) (issued example_world (status example_world).2)
     <> [apiUrl +:+ "api/status" +:+ "?" +:+ EmptyString]
  /\ logged example_world (status example_world).2
     = [ EvDate 1700000000000;
         EvHmac "shh" (Base64.encode (Bytes.of_string "api/status/1700000000000/null"));
         EvHttp example_status ].
Proof.
  split; [vm_compute; reflexivity|]. split; [vm_compute; discriminate|].
  vm_compute; reflexivity.
Qed.

(** ** Promises and the transport *)

Lemma callback_outcome (p : nat) (r : Reply) :
  (let '(err, resp, body) := request.callback_args r in callback p err resp body)
  = Promise.settle p (outcome r).
Proof. destruct r; reflexivity. Qed.

Section Settle.
Variables (p : nat) (s : PromiseState) (w : World).

Lemma settle_frame :
  self (Promise.settle p s w).2 = self w
  /\ clock (Promise.settle p s w).2 = clock w
  /\ reads (Promise.settle p s w).2 = reads w
  /\ inflight (Promise.settle p s w).2 = inflight w
  /\ log (Promise.settle p s w).2 = log w.
Proof.
  unfold Promise.settle, modify. cbn [snd].
  destruct (promises w !! p) as [[]|]; repeat split.
Qed.

Lemma settle_pending :
  promises w !! p = Some Pending ->
  promises (Promise.settle p s w).2 !! p = Some s.
Proof.
  intros H. unfold Promise.settle, modify. cbn [snd]. rewrite H.
  cbn [promises set_promises]. apply list_lookup_insert_eq.
  eapply lookup_lt_Some, H.
Qed.

Lemma settle_other (q : nat) :
  p <> q -> promises (Promise.settle p s w).2 !! q = promises w !! q.
Proof.
  intros H. unfold Promise.settle, modify. cbn [snd].
  destruct (promises w !! p) as [[]|]; try reflexivity.
  cbn [promises set_promises]. apply list_lookup_insert_ne, H.
Qed.

Lemma settle_settled (s' : PromiseState) :
  promises w !! p = Some s' -> s' <> Pending -> (Promise.settle p s w).2 = w.
Proof.
  intros H N. unfold Promise.settle, modify. cbn [snd]. rewrite H.
  destruct s'; try reflexivity. destruct (N eq_refl).
Qed.
End Settle.

Section Deliver.
Variables (p : nat) (r : Reply) (w : World).

Lemma deliver_absent :
  (forall rq, rq ∈ inflight w -> waiter rq <> p) ->
  Transport.deliver p r w = (Normal tt, w).
Proof.
  intros H. unfold Transport.deliver.
  destruct (filter (fun rq => waiter rq = p) (inflight w)) as [|rq l] eqn:F;
    [reflexivity|].
  assert (I : rq ∈ filter (fun rq => waiter rq = p) (inflight w))
    by (rewrite F; apply list_elem_of_here).
  apply list_elem_of_filter in I as [I1 I2]. destruct (H rq I2 I1).
Qed.

Lemma deliver_present (rq : Request) :
  rq ∈ inflight w -> waiter rq = p ->
  Transport.deliver p r w
  = Promise.settle p (outcome r)
      (set_inflight (filter (fun rq => waiter rq <> p) (inflight w)) w).
Proof.
  intros I E. unfold Transport.deliver.
  destruct (filter (fun rq => waiter rq = p) (inflight w)) as [|rq' l] eqn:F.
  - destruct (filter_nil_not_elem_of _ _ rq F E I).
  - rewrite <- callback_outcome. destruct (request.callback_args r) as [[err resp] body].
    reflexivity.
Qed.

(** Either nothing waits for [p] and the answer is dropped, or a request
    does and its callback settles [p]. *)
Lemma deliver_cases :
  ((forall rq, rq ∈ inflight w -> waiter rq <> p)
   /\ Transport.deliver p r w = (Normal tt, w))
  \/ ((exists rq, rq ∈ inflight w /\ waiter rq = p)
      /\ Transport.deliver p r w
         = Promise.settle p (outcome r)
             (set_inflight (filter (fun rq => waiter rq <> p) (inflight w)) w)).
Proof.
  destruct (filter (fun rq => waiter rq = p) (inflight w)) as [|rq l] eqn:F.
  - left. assert (H : forall rq, rq ∈ inflight w -> waiter rq <> p).
    { intros rq I E. exact (filter_nil_not_elem_of _ _ rq F E I). }
    split; [exact H | apply deliver_absent, H].
  - assert (I : rq ∈ filter (fun rq => waiter rq = p) (inflight w))
      by (rewrite F; apply list_elem_of_here).
    apply list_elem_of_filter in I as [I1 I2].
    right. split; [exists rq; split; assumption|].
    apply (deliver_present rq I2 I1).
Qed.
End Deliver.

(** What a dispatch does to the world, whatever the secret is: one clock
    reading, at most one new promise, and new requests only for that
    promise. *)
Lemma dispatch_effect method url query params w :
  let w' := (sendRequest method url query params w).2 in
  self w' = self w /\ clock w' = clock w /\ reads w' = S (reads w)
  /\ exists ps rqs,
       promises w' = promises w ++ ps
       /\ inflight w' = inflight w ++ rqs
       /\ Forall (fun rq => waiter rq = length (promises w)) rqs.
Proof.
  destruct (secret_string_dec (_apiSecret (self w))) as [[s E]|N].
  - rewrite (sendRequest_normal _ _ _ _ _ s E). cbn [snd self clock reads promises inflight].
    repeat split. eexists _, _. split; [reflexivity|]. split; [reflexivity|].
    unfold requests_of.
    destruct (strict_eq_str method "GET"); [|destruct (strict_eq_str method "POST")];
      repeat constructor.
  - rewrite (sendRequest_throw _ _ _ _ _ N). cbn. repeat split.
    exists [], []. rewrite !app_nil_r. repeat split. constructor.
Qed.

(** ** Scenarios *)

Lemma steps_app (xs ys : list Action) (w : World) :
  steps (xs ++ ys) w = steps ys (steps xs w).
Proof. apply fold_left_app. Qed.

Lemma steps_cons (a : Action) (acts : list Action) (w : World) :
  steps (a :: acts) w = steps acts (step w a).
Proof. reflexivity. Qed.

(** An invariant kept by every permitted step holds after any number of
    permitted steps. *)
Lemma steps_invariant (I : World -> Prop) (ok : Action -> Prop) :
  (forall w a, I w -> ok a -> I (step w a)) ->
  forall acts w, I w -> Forall ok acts -> I (steps acts w).
Proof.
  intros Hstep acts. induction acts as [|a acts IH]; intros w Hw Hok.
  - exact Hw.
  - inversion Hok as [|? ? Ha Hacts]; subst. rewrite steps_cons.
    apply IH; [apply Hstep; assumption | exact Hacts].
Qed.

(** A settled promise stays as it is. *)
Lemma step_settled (p : nat) (s : PromiseState) (w : World) (a : Action) :
  promises w !! p = Some s /\ s <> Pending ->
  promises (step w a) !! p = Some s /\ s <> Pending.
Proof.
  intros [H N]. split; [|exact N]. destruct a as [m u q pa|p' r]; cbn [step].
  - destruct (dispatch_effect m u q pa w) as (_ & _ & _ & ps & rqs & -> & _ & _).
    apply lookup_app_l_Some, H.
  - destruct (deliver_cases p' r w) as [[_ ->]|[_ ->]]; [exact H|].
    destruct (decide (p' = p)) as [->|Hne].
    + rewrite (settle_settled _ _ _ s); [exact H | exact H | exact N].
    + rewrite settle_other by exact Hne. exact H.
Qed.

(** A pending promise with a request in flight stays so until that request
    is answered. *)
Lemma step_waiting (p : nat) (w : World) (a : Action) :
  promises w !! p = Some Pending /\ (exists rq, rq ∈ inflight w /\ waiter rq = p) ->
  ~ answers p a ->
  promises (step w a) !! p = Some Pending
  /\ (exists rq, rq ∈ inflight (step w a) /\ waiter rq = p).
Proof.
  intros [H [rq [I E]]] Ha. destruct a as [m u q pa|p' r]; cbn [step].
  - destruct (dispatch_effect m u q pa w) as (_ & _ & _ & ps & rqs & -> & -> & _).
    split; [apply lookup_app_l_Some, H|].
    exists rq. split; [apply elem_of_app; left; exact I | exact E].
  - assert (Hne : p' <> p) by exact Ha.
    destruct (deliver_cases p' r w) as [[_ ->]|[_ ->]].
    + split; [exact H | exists rq; split; assumption].
    + rewrite settle_other by exact Hne.
      destruct (settle_frame p' (outcome r)
                  (set_inflight (filter (fun rq => waiter rq <> p') (inflight w)) w))
        as (_ & _ & _ & -> & _).
      split; [exact H|]. exists rq. split; [|exact E].
      apply list_elem_of_filter. split; [congruence | exact I].
Qed.

(** A pending promise no request waits for stays so, whatever happens. *)
Lemma step_orphan (p : nat) (w : World) (a : Action) :
  promises w !! p = Some Pending /\ (forall rq, rq ∈ inflight w -> waiter rq <> p) ->
  promises (step w a) !! p = Some Pending
  /\ (forall rq, rq ∈ inflight (step w a) -> waiter rq <> p).
Proof.
  intros [H I]. destruct a as [m u q pa|p' r]; cbn [step].
  - destruct (dispatch_effect m u q pa w) as (_ & _ & _ & ps & rqs & -> & -> & F).
    split; [apply lookup_app_l_Some, H|].
    intros rq [Hin|Hin]%elem_of_app; [apply I, Hin|].
    rewrite Forall_forall in F. rewrite (F rq Hin).
    apply lookup_lt_Some in H. lia.
  - destruct (deliver_cases p' r w) as [[_ ->]|[[rq [Hin E]] ->]]; [split; assumption|].
    assert (Hne : p' <> p) by (intros ->; exact (I rq Hin E)).
    rewrite settle_other by exact Hne.
    destruct (settle_frame p' (outcome r)
                (set_inflight (filter (fun rq => waiter rq <> p') (inflight w)) w))
      as (_ & _ & _ & -> & _).
    split; [exact H|]. intros rq' [_ Hin']%list_elem_of_filter. apply I, Hin'.
Qed.

(** Answering the request a pending promise waits for settles the promise
    with the outcome of the answer. *)
Lemma step_answer (p : nat) (r : Reply) (w : World) :
  promises w !! p = Some Pending /\ (exists rq, rq ∈ inflight w /\ waiter rq = p) ->
  promises (step w (Answer p r)) !! p = Some (outcome r).
Proof.
  intros [H [rq [I E]]]. cbn [step]. rewrite (deliver_present p r w rq I E).
  apply settle_pending. exact H.
Qed.

(** C7. After a dispatch with method GET or POST on a client whose secret is
    a string, the promise is pending as long as the transport has not
    answered its request; once the transport answers, the promise is
    fulfilled with the body if the exchange completed, whatever the status
    code, and rejected with the error if the transport failed; nothing that
    happens later changes that. *)
Theorem promise_follows_transport
    (w : World) (secret : string) (method url query params : value)
    (pre post : list Action) (r : Reply) :
  _apiSecret (self w) = VString secret ->
  method = VString "GET" \/ method = VString "POST" ->
  Forall (fun a => ~ answers (length (promises w)) a) pre ->
  (sendRequest method url query params w).1 = Normal (length (promises w))
  /\ Promise.state (length (promises w))
       (steps pre (sendRequest method url query params w).2) = Some Pending
  /\ Promise.state (length (promises w))
       (steps (pre ++ Answer (length (promises w)) r :: post)
          (sendRequest method url query params w).2)
     = Some match r with
            | NetDone _ body => Fulfilled (VString body)
            | NetFail reason => Rejected (VError "Error" reason)
            end.
Proof.
  intros Hs Hm Hpre. set (p := length (promises w)) in *.
  rewrite (sendRequest_normal _ _ _ _ _ secret Hs). cbn [fst snd]. fold p.
  set (w1 := {| self := self w; clock := clock w; reads := S (reads w);
                promises := promises w ++ [Pending]; inflight := _; log := _ |}).
  assert (W : promises w1 !! p = Some Pending
              /\ exists rq, rq ∈ inflight w1 /\ waiter rq = p).
  { split; [apply list_lookup_middle; reflexivity|].
    unfold w1, requests_of. cbn [inflight].
    destruct Hm as [-> | ->]; cbn [strict_eq_str String.eqb Ascii.eqb Bool.eqb];
      eexists; (split; [apply elem_of_app; right; apply list_elem_of_here
                       | reflexivity]). }
  pose proof (steps_invariant _ _ (step_waiting p) pre w1 W Hpre) as W'.
  split; [reflexivity|]. split; [exact (proj1 W')|].
  rewrite steps_app, steps_cons.
  pose proof (step_answer p r _ W') as A.
  assert (S : promises (step (steps pre w1) (Answer p r)) !! p = Some (outcome r)
              /\ outcome r <> Pending) by (split; [exact A | destruct r; discriminate]).
  pose proof (steps_invariant _ (fun _ => True)
                (fun w a H _ => step_settled p (outcome r) w a H) post _ S
                (Forall_true _ _ (fun _ => I))) as [F _].
  unfold Promise.state. rewrite F. destruct r; reflexivity.
Qed.

Lemma promise_follows_transport_witness :
  _apiSecret (self example_world) = VString "shh"
  /\ (VString "GET" = VString "GET" \/ VString "GET" = VString "POST")
  /\ Forall (fun a => ~ answers (length (promises example_world)) a)
       [Dispatch (VString "POST") (VString "bot/create") (VString "pair=BTC_USDT") VNull]
  /\ Promise.state 0
       (steps
          ([Dispatch (VString "POST") (VString "bot/create") (VString "pair=BTC_USDT") VNull]
           ++ Answer 0 (NetDone 500 "Internal Server Error")
              :: [Answer 0 (NetFail "ETIMEDOUT")])
          (sendRequest (VString "GET") (VString "bot/all") VUndefined VUndefined
             example_world).2)
     = Some (Fulfilled (VString "Internal Server Error")).
Proof.
  assert (F : Forall (fun a => ~ answers (length (promises example_world)) a)
                [Dispatch (VString "POST") (VString "bot/create")
                   (VString "pair=BTC_USDT") VNull])
    by (constructor; [intros [] | constructor]).
  split; [reflexivity|]. split; [left; reflexivity|]. split; [exact F|].
  exact (proj2 (proj2
    (promise_follows_transport example_world "shh" (VString "GET") (VString "bot/all")
       VUndefined VUndefined _ [Answer 0 (NetFail "ETIMEDOUT")]
       (NetDone 500 "Internal Server Error") eq_refl (or_introl eq_refl) F))).
Defined.

Lemma strict_eq_str_false (v : value) (lit : string) :
  v <> VString lit -> strict_eq_str v lit = false.
Proof.
  intros N. destruct v; try reflexivity. cbn.
  apply String.eqb_neq. congruence.
Qed.

(** C3, what the client does: for a method that is neither "GET" nor "POST"
    the call returns a promise and hands nothing to the transport; no request
    waits for that promise, so it is pending after any number of further
    dispatches and answers: it is never rejected. *)
Theorem unsupported_method_never_settles
    (w : World) (secret : string) (method url query params : value)
    (acts : list Action) :
  well_formed w ->
  _apiSecret (self w) = VString secret ->
  method <> VString "GET" -> method <> VString "POST" ->
  (sendRequest method url query params w).1 = Normal (length (promises w))
  /\ issued w (sendRequest method url query params w).2 = []
  /\ Promise.state (length (promises w))
       (steps acts (sendRequest method url query params w).2) = Some Pending.
Proof.
  intros Hwf Hs HG HP.
  rewrite issued_sendRequest, Hs, (sendRequest_normal _ _ _ _ _ secret Hs).
  unfold requests_of.
  rewrite (strict_eq_str_false _ _ HG), (strict_eq_str_false _ _ HP), app_nil_r.
  cbn [fst snd]. split; [reflexivity|]. split; [reflexivity|].
  set (p := length (promises w)).
  refine (proj1 (steps_invariant
            (fun w' => promises w' !! p = Some Pending
                       /\ forall rq, rq ∈ inflight w' -> waiter rq <> p)
            (fun _ => True) (fun w' a H _ => step_orphan p w' a H) acts _ _
            (Forall_true _ _ (fun _ => I)))).
  cbn [promises inflight]. split; [apply list_lookup_middle; reflexivity|].
  intros rq Hin. unfold well_formed in Hwf. rewrite Forall_forall in Hwf.
  specialize (Hwf rq Hin). unfold p. lia.
Qed.

Lemma unsupported_method_never_settles_witness :
  well_formed example_world
  /\ _apiSecret (self example_world) = VString "shh"
  /\ VString "PUT" <> VString "GET"
  /\ VString "PUT" <> VString "POST"
  /\ (sendRequest (VString "PUT") (VString "bot/all") VUndefined VUndefined
        example_world).1 = Normal 0%nat
  /\ issued example_world
       (sendRequest (VString "PUT") (VString "bot/all") VUndefined VUndefined
          example_world).2 = []
  /\ Promise.state 0
       (steps [Answer 0 (NetDone 200 "[]"); Answer 0 (NetFail "ECONNREFUSED")]
          (sendRequest (VString "PUT") (VString "bot/all") VUndefined VUndefined
             example_world).2)
     = Some Pending.
Proof.
  assert (Hwf : well_formed example_world) by constructor.
  assert (HG : VString "PUT" <> VString "GET") by discriminate.
  assert (HP : VString "PUT" <> VString "POST") by discriminate.
  split; [exact Hwf|]. split; [reflexivity|]. split; [exact HG|]. split; [exact HP|].
  exact (unsupported_method_never_settles example_world "shh" (VString "PUT")
           (VString "bot/all") VUndefined VUndefined
           [Answer 0 (NetDone 200 "[]"); Answer 0 (NetFail "ECONNREFUSED")]
           Hwf eq_refl HG HP).
Defined.

(** ** Nonces and signatures along a scenario *)

Lemma deliver_frame (p : nat) (r : Reply) (w : World) :
  self (Transport.deliver p r w).2 = self w
  /\ clock (Transport.deliver p r w).2 = clock w
  /\ reads (Transport.deliver p r w).2 = reads w
  /\ log (Transport.deliver p r w).2 = log w.
Proof.
  destruct (deliver_cases p r w) as [[_ ->]|[_ ->]]; [repeat split|].
  destruct (settle_frame p (outcome r)
              (set_inflight (filter (fun rq => waiter rq <> p) (inflight w)) w))
    as (-> & -> & -> & _ & ->).
  repeat split.
Qed.






(** * Further properties *)

(** ** The endpoint methods *)

Lemma append_nil_r (s : string) : s +:+ EmptyString = s.
Proof. induction s as [|a s IH]; [reflexivity | rewrite append_cons, IH; reflexivity]. Qed.

(** Every endpoint method is one call of [sendRequest]. *)
Lemma invoke_sendRequest (e : Endpoint) (m : gmap string string) (attributes : value)
    (w : World) :
  invoke e (VObject m) attributes w
  = sendRequest (VString (verb_name (endpoint_verb e))) (VString (endpoint_path e))
      (endpoint_query e m) (endpoint_body e attributes) w.
Proof.
  destruct e; try reflexivity;
    unfold invoke, botInfo, deleteBot, createBot, createPreset, updateBot, activateBot,
      deactivateBot, startBotForce, getBotLogs, freezeDeal, unfreezeDeal,
      updateTakeProfit, cancelDeal, dealInfo, getAnalytics, prop, bind, ret;
    fold (field m "botId") (field m "dealId") (field m "pair") (field m "exchange")
      (field m "start") (field m "end");
    unfold endpoint_query, endpoint_keys, query_of;
    cbn [map String.concat endpoint_verb verb_name endpoint_path endpoint_body];
    rewrite ?append_assoc; reflexivity.
Qed.

(** X1. On a client whose secret is a string, every endpoint method, called
    with a parameter object, returns a new promise and hands exactly one
    request to the transport: with the verb and the path of the endpoint, the
    query [k1=v1&k2=v2] made of the parameters it names (the text "null"
    when it names none), the attributes as the form of a POST and no form
    for a GET. *)
Theorem endpoint_issues_one_request
    (e : Endpoint) (m : gmap string string) (attributes : value)
    (w : World) (secret : string) :
  _apiSecret (self w) = VString secret ->
  (invoke e (VObject m) attributes w).1 = Normal (length (promises w))
  /\ exists rq : Request,
       issued w (invoke e (VObject m) attributes w).2 = [rq]
       /\ verb rq = endpoint_verb e
       /\ method (opts rq) = VString (verb_name (endpoint_verb e))
       /\ uri (opts rq)
          = ((apiUrl +:+ endpoint_path e) +:+ "?")
            +:+ match endpoint_keys e with
                | [] => "null"
                | keys => query_of keys m
                end
       /\ form (opts rq)
          = match endpoint_verb e with
            | GET => None
            | POST => Some (default attributes VNull)
            end
       /\ waiter rq = length (promises w).
Proof.
  intros Hs. rewrite invoke_sendRequest, issued_sendRequest, Hs.
  rewrite (sendRequest_normal _ _ _ _ _ secret Hs). cbn [fst].
  split; [reflexivity|].
  destruct e; eexists; (split; [reflexivity|]); repeat split.
Qed.

Lemma endpoint_issues_one_request_witness :
  _apiSecret (self example_world) = VString "shh"
  /\ exists rq : Request,
       issued example_world
         (invoke UpdateBot (VObject (<[ "botId" := "42" ]> {[ "pair" := "BTC_USDT" ]}))
            (VObject {[ "name" := "renamed" ]}) example_world).2 = [rq]
       /\ verb rq = POST
       /\ uri (opts rq) = "https://api.cryptorg.net/bot/configure?botId=42&pair=BTC_USDT"
       /\ form (opts rq) = Some (VObject {[ "name" := "renamed" ]}).
Proof.
  split; [reflexivity|].
  destruct (endpoint_issues_one_request UpdateBot
              (<[ "botId" := "42" ]> {[ "pair" := "BTC_USDT" ]})
              (VObject {[ "name" := "renamed" ]}) example_world "shh" eq_refl)
    as [_ [rq (Hi & Hv & _ & Hu & Hf & _)]].
  exists rq. split; [exact Hi|]. split; [exact Hv|]. split; [|exact Hf].
  rewrite Hu. vm_compute. reflexivity.
Defined.

(** A pending promise with a request in flight is settled by the answer to
    that request, whatever else happens before and after. *)
Lemma waiting_settles (p : nat) (w : World) (pre post : list Action) (r : Reply) :
  promises w !! p = Some Pending /\ (exists rq, rq ∈ inflight w /\ waiter rq = p) ->
  Forall (fun a => ~ answers p a) pre ->
  promises (steps (pre ++ Answer p r :: post) w) !! p = Some (outcome r).
Proof.
  intros W Hpre.
  pose proof (steps_invariant _ _ (step_waiting p) pre w W Hpre) as W'.
  rewrite steps_app, steps_cons.
  assert (S : promises (step (steps pre w) (Answer p r)) !! p = Some (outcome r)
              /\ outcome r <> Pending)
    by (split; [apply step_answer, W' | destruct r; discriminate]).
  exact (proj1 (steps_invariant _ (fun _ => True)
                  (fun w a H _ => step_settled p (outcome r) w a H) post _ S
                  (Forall_true _ _ (fun _ => I)))).
Qed.

(** X2. No endpoint method leaves its promise hanging: on a client whose
    secret is a string, the promise an endpoint method returns is settled by
    the transport's answer to its request, fulfilled with the body of a
    completed exchange or rejected with the transport's error, whatever other
    dispatches and answers come before and after. *)
Theorem endpoint_promise_settles
    (e : Endpoint) (m : gmap string string) (attributes : value)
    (w : World) (secret : string) (pre post : list Action) (r : Reply) :
  _apiSecret (self w) = VString secret ->
  Forall (fun a => ~ answers (length (promises w)) a) pre ->
  Promise.state (length (promises w))
    (steps (pre ++ Answer (length (promises w)) r :: post)
       (invoke e (VObject m) attributes w).2)
  = Some match r with
         | NetDone _ body => Fulfilled (VString body)
         | NetFail reason => Rejected (VError "Error" reason)
         end.
Proof.
  intros Hs Hpre. unfold Promise.state.
  rewrite waiting_settles; [destruct r; reflexivity | | exact Hpre].
  rewrite invoke_sendRequest, (sendRequest_normal _ _ _ _ _ secret Hs).
  cbn [snd promises inflight]. split; [apply list_lookup_middle; reflexivity|].
  destruct e; eexists;
    (split; [apply elem_of_app; right; apply list_elem_of_here | reflexivity]).
Qed.

Lemma endpoint_promise_settles_witness :
  _apiSecret (self example_world) = VString "shh"
  /\ Forall (fun a => ~ answers (length (promises example_world)) a)
       [Dispatch (VString "GET") (VString "bot/all") VUndefined VUndefined; Answer 1 (NetDone 200 "[]")]
  /\ Promise.state 0
       (steps
          ([Dispatch (VString "GET") (VString "bot/all") VUndefined VUndefined;
            Answer 1 (NetDone 200 "[]")]
           ++ Answer 0 (NetFail "ECONNRESET") :: [Answer 0 (NetDone 200 "late")])
          (invoke CancelDeal (VObject {[ "dealId" := "7" ]}) VUndefined example_world).2)
     = Some (Rejected (VError "Error" "ECONNRESET")).
Proof.
  assert (F : Forall (fun a => ~ answers (length (promises example_world)) a)
                [Dispatch (VString "GET") (VString "bot/all") VUndefined VUndefined;
                 Answer 1 (NetDone 200 "[]")]).
  { constructor; [intros []|]. constructor; [intros E; discriminate E | constructor]. }
  split; [reflexivity|]. split; [exact F|].
  exact (endpoint_promise_settles CancelDeal {[ "dealId" := "7" ]} VUndefined
           example_world "shh" _ [Answer 0 (NetDone 200 "late")] (NetFail "ECONNRESET")
           eq_refl F).
Defined.

(** X3. An endpoint method that names parameters, called without a
    parameter object ([undefined] or [null]), throws a TypeError at once:
    no clock reading, no signature, no promise and no request. *)
Theorem endpoint_without_params_throws
    (e : Endpoint) (params attributes : value) (w : World) :
  endpoint_keys e <> [] ->
  params = VUndefined \/ params = VNull ->
  invoke e params attributes w = (Throw (VError "TypeError" "cannot read property"), w).
Proof.
  intros Hk [-> | ->]; destruct e; try reflexivity; destruct (Hk eq_refl).
Qed.

Lemma endpoint_without_params_throws_witness :
  endpoint_keys DealInfo <> []
  /\ (VUndefined = VUndefined \/ VUndefined = VNull)
  /\ invoke DealInfo VUndefined VUndefined example_world
     = (Throw (VError "TypeError" "cannot read property"), example_world).
Proof.
  assert (Hk : endpoint_keys DealInfo <> []) by discriminate.
  split; [exact Hk|]. split; [left; reflexivity|].
  exact (endpoint_without_params_throws DealInfo VUndefined VUndefined example_world
           Hk (or_introl eq_refl)).
Defined.

Lemma query_of_ext (keys : list string) (m1 m2 : gmap string string) :
  (forall k, k ∈ keys -> m1 !! k = m2 !! k) -> query_of keys m1 = query_of keys m2.
Proof.
  intros H. unfold query_of. f_equal. apply map_ext_in. intros k Hk.
  unfold field. rewrite (H k); [reflexivity|]. apply list_elem_of_In, Hk.
Qed.

(** X4. An endpoint method reads only the parameters it names: two
    parameter objects that agree on them give the same result and the same
    world, whatever else they hold. *)
Theorem endpoint_ignores_other_keys
    (e : Endpoint) (m1 m2 : gmap string string) (attributes : value) (w : World) :
  (forall k, k ∈ endpoint_keys e -> m1 !! k = m2 !! k) ->
  invoke e (VObject m1) attributes w = invoke e (VObject m2) attributes w.
Proof.
  intros H. rewrite !invoke_sendRequest. unfold endpoint_query.
  destruct (endpoint_keys e) as [|k keys] eqn:E; [reflexivity|].
  rewrite (query_of_ext (k :: keys) m1 m2 H). reflexivity.
Qed.

Lemma endpoint_ignores_other_keys_witness :
  (forall k, k ∈ endpoint_keys UpdateTakeProfit ->
     ({[ "dealId" := "7" ]} : gmap string string) !! k
     = (<[ "takeProfit" := "1.5" ]> {[ "dealId" := "7" ]} : gmap string string) !! k)
  /\ invoke UpdateTakeProfit (VObject {[ "dealId" := "7" ]}) VUndefined example_world
     = invoke UpdateTakeProfit (VObject (<[ "takeProfit" := "1.5" ]> {[ "dealId" := "7" ]}))
         VUndefined example_world.
Proof.
  assert (H : forall k, k ∈ endpoint_keys UpdateTakeProfit ->
                ({[ "dealId" := "7" ]} : gmap string string) !! k
                = (<[ "takeProfit" := "1.5" ]> {[ "dealId" := "7" ]} : gmap string string) !! k).
  { intros k Hk. apply list_elem_of_singleton in Hk. subst k. reflexivity. }
  split; [exact H|].
  exact (endpoint_ignores_other_keys UpdateTakeProfit _ _ VUndefined example_world H).
Defined.

Lemma field_insert_eq (m : gmap string string) (k v : string) :
  field (<[k := v]> m) k = VString v.
Proof. unfold field. rewrite lookup_insert_eq. reflexivity. Qed.

Lemma field_insert_ne (m : gmap string string) (k k' v : string) :
  k <> k' -> field (<[k := v]> m) k' = field m k'.
Proof. intros H. unfold field. rewrite lookup_insert_ne by exact H. reflexivity. Qed.

Lemma field_singleton (k v : string) : field {[k := v]} k = VString v.
Proof. unfold field. rewrite lookup_singleton_eq. reflexivity. Qed.

(** X5. Parameter values go into the query as they are, without escaping:
    a pair that contains the text "&exchange=" is indistinguishable from a
    pair and an exchange, so different parameter objects lead [createBot] to
    the very same request and signature. *)
Theorem createBot_query_not_escaped (a b c : string) (attributes : value) (w : World) :
  createBot (VObject (<[ "pair" := a +:+ "&exchange=" +:+ b ]> {[ "exchange" := c ]}))
    attributes w
  = createBot (VObject (<[ "pair" := a ]> {[ "exchange" := b +:+ "&exchange=" +:+ c ]}))
      attributes w.
Proof.
  change (invoke CreateBot
            (VObject (<[ "pair" := a +:+ "&exchange=" +:+ b ]> {[ "exchange" := c ]}))
            attributes w
          = invoke CreateBot
              (VObject (<[ "pair" := a ]> {[ "exchange" := b +:+ "&exchange=" +:+ c ]}))
              attributes w).
  rewrite !invoke_sendRequest. unfold endpoint_query, endpoint_keys, query_of.
  cbn [map String.concat].
  rewrite !field_insert_eq, !field_insert_ne, !field_singleton by discriminate.
  cbn [to_string]. rewrite !append_assoc. reflexivity.
Qed.

Lemma query_of_missing (keys : list string) (m : gmap string string) :
  (forall k, k ∈ keys -> m !! k = None) ->
  query_of keys m = String.concat "&" (map (fun k => k +:+ "=undefined") keys).
Proof.
  intros H. unfold query_of. f_equal. apply map_ext_in. intros k Hk.
  unfold field. rewrite (H k) by (apply list_elem_of_In, Hk). apply append_assoc.
Qed.

(** X6. A parameter the object does not hold is not an error: on a client
    whose secret is a string, an endpoint method called with an object that
    lacks the parameters it names issues its request all the same, with the
    text "undefined" in the place of each missing value. *)
Theorem endpoint_missing_parameters
    (e : Endpoint) (m : gmap string string) (attributes : value)
    (w : World) (secret : string) :
  _apiSecret (self w) = VString secret ->
  endpoint_keys e <> [] ->
  (forall k, k ∈ endpoint_keys e -> m !! k = None) ->
  map (fun rq => uri (opts rq)) (issued w (invoke e (VObject m) attributes w).2)
  = [ ((apiUrl +:+ endpoint_path e) +:+ "?")
      +:+ String.concat "&" (map (fun k => k +:+ "=undefined") (endpoint_keys e)) ].
Proof.
  intros Hs Hk Hm. rewrite invoke_sendRequest, issued_sendRequest, Hs.
  unfold endpoint_query. rewrite <- (query_of_missing _ m Hm).
  destruct (endpoint_keys e) as [|k keys] eqn:E; [destruct (Hk eq_refl)|].
  destruct e; reflexivity.
Qed.

Lemma endpoint_missing_parameters_witness :
  _apiSecret (self example_world) = VString "shh"
  /\ endpoint_keys GetAnalytics <> []
  /\ (forall k, k ∈ endpoint_keys GetAnalytics -> (∅ : gmap string string) !! k = None)
  /\ map (fun rq => uri (opts rq))
       (issued example_world (invoke GetAnalytics (VObject ∅) VUndefined example_world).2)
     = ["https://api.cryptorg.net/analytics/get?start=undefined&end=undefined"].
Proof.
  assert (Hk : endpoint_keys GetAnalytics <> []) by discriminate.
  assert (Hm : forall k, k ∈ endpoint_keys GetAnalytics ->
                 (∅ : gmap string string) !! k = None)
    by (intros k _; apply lookup_empty).
  split; [reflexivity|]. split; [exact Hk|]. split; [exact Hm|].
  exact (endpoint_missing_parameters GetAnalytics ∅ VUndefined example_world "shh"
           eq_refl Hk Hm).
Defined.

(** ** Dispatches and answers *)

(** X7. A call of [sendRequest] touches nothing that was there before it:
    the client's fields stay, every existing promise keeps its state, the
    requests in flight stay in the queue in their order, the log only grows,
    and the clock is read once, also when the call throws. *)
Theorem sendRequest_frame (w : World) (method url query params : value) :
  self (sendRequest method url query params w).2 = self w
  /\ reads (sendRequest method url query params w).2 = S (reads w)
  /\ (forall p s, promises w !! p = Some s ->
        promises (sendRequest method url query params w).2 !! p = Some s)
  /\ inflight w `prefix_of` inflight (sendRequest method url query params w).2
  /\ log w `prefix_of` log (sendRequest method url query params w).2.
Proof.
  destruct (secret_string_dec (_apiSecret (self w))) as [[s E]|N].
  - rewrite (sendRequest_normal _ _ _ _ _ s E).
    cbn [snd self reads promises inflight log]. repeat split.
    + intros p st H. apply lookup_app_l_Some, H.
    + eexists. reflexivity.
    + eexists. reflexivity.
  - rewrite (sendRequest_throw _ _ _ _ _ N).
    cbn [snd self reads promises inflight log emit tick]. repeat split.
    + intros p st H. exact H.
    + exists []. symmetry. apply app_nil_r.
    + eexists. reflexivity.
Qed.

(** What a dispatch adds: nothing, or a new pending promise with at most one
    request waiting for it. *)
Lemma dispatch_adds method url query params w :
  let w' := (sendRequest method url query params w).2 in
  (promises w' = promises w /\ inflight w' = inflight w)
  \/ (promises w' = promises w ++ [Pending]
      /\ (inflight w' = inflight w
          \/ exists rq, inflight w' = inflight w ++ [rq]
                        /\ waiter rq = length (promises w))).
Proof.
  destruct (secret_string_dec (_apiSecret (self w))) as [[s E]|N].
  - right. rewrite (sendRequest_normal _ _ _ _ _ s E). cbn [snd promises inflight].
    split; [reflexivity|]. unfold requests_of.
    destruct (strict_eq_str method "GET"); [|destruct (strict_eq_str method "POST")].
    + right. eexists. split; reflexivity.
    + right. eexists. split; reflexivity.
    + left. apply app_nil_r.
  - left. rewrite (sendRequest_throw _ _ _ _ _ N). split; reflexivity.
Qed.

Lemma step_consistent (w : World) (a : Action) :
  consistent w -> consistent (step w a).
Proof.
  intros [Hnd Hp]. destruct a as [method url query params|p r]; cbn [step];
    unfold consistent.
  - pose proof (dispatch_adds method url query params w) as D. cbv zeta in D.
    destruct D as [[-> ->]|[-> [-> | [rq [-> Hw]]]]].
    + split; assumption.
    + split; [exact Hnd|]. intros rq Hin. apply lookup_app_l_Some, Hp, Hin.
    + split.
      * rewrite fmap_app. apply NoDup_app. split; [exact Hnd|].
        split; [|apply NoDup_singleton].
        intros x Hx Hx'. apply list_elem_of_singleton in Hx'. subst x.
        apply list_elem_of_fmap in Hx as [rq' [Hw' Hin]].
        apply Hp, lookup_lt_Some in Hin. cbn [fmap list_fmap] in Hw'. lia.
      * intros rq' [Hin | ->%list_elem_of_singleton]%elem_of_app.
        -- apply lookup_app_l_Some, Hp, Hin.
        -- rewrite Hw. apply list_lookup_middle. reflexivity.
  - destruct (deliver_cases p r w) as [[_ ->]|[_ ->]]; [split; assumption|].
    destruct (settle_frame p (outcome r)
                (set_inflight (filter (fun rq => waiter rq <> p) (inflight w)) w))
      as (_ & _ & _ & -> & _).
    cbn [inflight set_inflight]. split.
    + eapply sublist_NoDup; [exact Hnd|]. apply fmap_sublist, sublist_filter.
    + intros rq [Hne Hin]%list_elem_of_filter.
      rewrite settle_other by congruence. apply Hp, Hin.
Qed.

(** X8. From a world in which no two requests in flight wait for the same
    promise and each waits for a pending one, any number of dispatches and
    answers leads to such a world again: an answer of the transport always
    finds at most one request, and the promise of a request still in flight
    has not been settled behind its back. *)
Theorem steps_consistent (w : World) (acts : list Action) :
  consistent w -> consistent (steps acts w).
Proof.
  intros H.
  exact (steps_invariant consistent (fun _ => True)
           (fun w a H _ => step_consistent w a H) acts w H
           (Forall_true _ _ (fun _ => I))).
Qed.

Lemma steps_consistent_witness :
  consistent example_world
  /\ consistent
       (steps [ Dispatch (VString "GET") (VString "bot/all") VUndefined VUndefined;
                Dispatch (VString "PUT") (VString "bot/all") VUndefined VUndefined;
                Answer 0 (NetDone 200 "[]");
                Dispatch (VString "POST") (VString "bot/create") (VString "pair=a") VNull ]
          example_world).
Proof.
  assert (H : consistent example_world).
  { split; [apply NoDup_nil; exact I|]. intros rq Hin.
    apply not_elem_of_nil in Hin. destruct Hin. }
  split; [exact H|]. exact (steps_consistent example_world _ H).
Defined.

Lemma deliver_promises_length (p : nat) (r : Reply) (w : World) :
  length (promises (Transport.deliver p r w).2) = length (promises w).
Proof.
  destruct (deliver_cases p r w) as [[_ ->]|[_ ->]]; [reflexivity|].
  unfold Promise.settle, modify. cbn [snd promises set_inflight].
  destruct (promises w !! p) as [[]|]; try reflexivity.
  cbn [promises set_promises]. apply length_insert.
Qed.

Lemma steps_without_secret (acts : list Action) :
  forall w : World,
    (forall s, _apiSecret (self w) <> VString s) ->
    length (promises (steps acts w)) = length (promises w)
    /\ exists tr, log (steps acts w) = log w ++ tr
                  /\ Forall (fun e => exists t, e = EvDate t) tr.
Proof.
  induction acts as [|[method url query params|p r] acts IH]; intros w N.
  - split; [reflexivity|]. exists []. split; [symmetry; apply app_nil_r | constructor].
  - rewrite steps_cons. cbn [step]. rewrite (sendRequest_throw _ _ _ _ _ N). cbn [snd].
    destruct (IH (emit (EvDate (clock w (reads w))) (tick w)) N) as [Hl [tr [Hlog Htr]]].
    split; [exact Hl|]. rewrite Hlog. cbn [log emit tick]. eexists.
    split; [rewrite <- app_assoc; reflexivity|].
    constructor; [eexists; reflexivity | exact Htr].
  - rewrite steps_cons. cbn [step].
    destruct (deliver_frame p r w) as (Es & _ & _ & El).
    destruct (IH (Transport.deliver p r w).2) as [Hl [tr [Hlog Htr]]];
      [rewrite Es; exact N|].
    rewrite Hl, Hlog, El, deliver_promises_length. split; [reflexivity|].
    exists tr. split; [reflexivity | exact Htr].
Qed.

(** X9. A client whose secret is neither a string nor a buffer ([undefined],
    [null], a number, a plain object) never gets a request out:
    every [sendRequest] throws a TypeError instead of returning a promise,
    and along any scenario of dispatches and answers no promise is created
    and the only calls into the runtime are clock readings: nothing is
    signed and nothing is handed to the transport. *)
Theorem missing_secret_never_dispatches (w : World) (acts : list Action) :
  (forall s, _apiSecret (self w) <> VString s) ->
  (forall method url query params,
     (sendRequest method url query params w).1 = Throw (VError "TypeError" "invalid key"))
  /\ length (promises (steps acts w)) = length (promises w)
  /\ Forall (fun e => exists t, e = EvDate t) (logged w (steps acts w)).
Proof.
  intros N. split.
  - intros method url query params. rewrite (sendRequest_throw _ _ _ _ _ N). reflexivity.
  - destruct (steps_without_secret acts w N) as [Hl [tr [Hlog Htr]]].
    split; [exact Hl|]. unfold logged. rewrite Hlog, drop_app_length. exact Htr.
Qed.

Lemma missing_secret_never_dispatches_witness :
  (forall s, _apiSecret (self (world0 (VString "key") VUndefined 5)) <> VString s)
  /\ logged (world0 (VString "key") VUndefined 5)
       (steps [ Dispatch (VString "GET") (VString "bot/all") VUndefined VUndefined;
                Dispatch (VString "POST") (VString "bot/create") (VString "pair=a") VNull ]
          (world0 (VString "key") VUndefined 5))
     = [EvDate 5; EvDate 6]
  /\ Forall (fun e => exists t, e = EvDate t)
       (logged (world0 (VString "key") VUndefined 5)
          (steps [ Dispatch (VString "GET") (VString "bot/all") VUndefined VUndefined;
                   Dispatch (VString "POST") (VString "bot/create") (VString "pair=a") VNull ]
             (world0 (VString "key") VUndefined 5))).
Proof.
  assert (N : forall s, _apiSecret (self (world0 (VString "key") VUndefined 5)) <> VString s)
    by (intros s E; discriminate E).
  split; [exact N|]. split; [reflexivity|].
  exact (proj2 (proj2 (missing_secret_never_dispatches _ _ N))).
Defined.

(** X10. The millisecond is all that tells two dispatches apart: on a client
    whose secret is a string, when the clock shows the same value at two
    consecutive readings, two consecutive calls of [sendRequest] with the
    same arguments hand the transport requests with the same uri, the same
    nonce and the same signature. *)
Theorem same_reading_same_request
    (w : World) (secret : string) (method url query params : value) :
  _apiSecret (self w) = VString secret ->
  clock w (reads w) = clock w (S (reads w)) ->
  opts <$> issued w (sendRequest method url query params w).2
  = opts <$> issued (sendRequest method url query params w).2
               (sendRequest method url query params
                  (sendRequest method url query params w).2).2.
Proof.
  intros Hs Hc. rewrite !issued_sendRequest.
  rewrite (sendRequest_normal _ _ _ _ _ secret Hs). cbn [snd self]. rewrite Hs.
  unfold requests_of, options_of. cbn [clock reads self]. rewrite <- Hc.
  destruct (strict_eq_str method "GET"); [|destruct (strict_eq_str method "POST")];
    reflexivity.
Qed.

Lemma same_reading_same_request_witness :
  _apiSecret (self (frozen_world (VString "key") (VString "shh") 1700000000000))
  = VString "shh"
  /\ clock (frozen_world (VString "key") (VString "shh") 1700000000000) 0
     = clock (frozen_world (VString "key") (VString "shh") 1700000000000) 1
  /\ (fun rq => uri (opts rq))
     <$> issued (status (frozen_world (VString "key") (VString "shh") 1700000000000)).2
           (status (status (frozen_world (VString "key") (VString "shh") 1700000000000)).2).2
     = ["https://api.cryptorg.net/api/status?null"].
Proof.
  split; [reflexivity|]. split; [reflexivity|].
  pose proof (same_reading_same_request
                (frozen_world (VString "key") (VString "shh") 1700000000000) "shh"
                (VString "GET") (VString "api/status") VUndefined VUndefined
                eq_refl eq_refl) as H.
  apply (f_equal (fmap uri)) in H. rewrite <- !list_fmap_compose in H.
  unfold status. etransitivity; [symmetry; exact H|].
  rewrite issued_sendRequest. reflexivity.
Defined.

(** ** The shape of a signature *)

Lemma be_length (n : nat) (x : Z) : length (Bytes.be n x) = n.
Proof.
  revert x. induction n as [|n IH]; intros x; [reflexivity|].
  cbn [Bytes.be]. rewrite length_app, IH. cbn [length]. lia.
Qed.

Lemma land_255_byte (x : Z) : byte (Z.land x 255).
Proof.
  unfold byte. change 255 with (Z.ones 8). rewrite Z.land_ones by lia.
  apply Z.mod_pos_bound. lia.
Qed.

Lemma be_bytes (n : nat) (x : Z) : Forall byte (Bytes.be n x).
Proof.
  revert x. induction n as [|n IH]; intros x; [constructor|].
  cbn [Bytes.be]. apply Forall_app. split; [apply IH|].
  constructor; [apply land_255_byte | constructor].
Qed.

Lemma round_length (s : list Z) (kw : Z * Z) : length (SHA256.round s kw) = length s.
Proof.
  destruct s as [|a [|b [|c [|d [|e [|f [|g [|h [|i s]]]]]]]]]; reflexivity.
Qed.

Lemma rounds_length (kws : list (Z * Z)) :
  forall s, length (fold_left SHA256.round kws s) = length s.
Proof.
  induction kws as [|kw kws IH]; intros s; [reflexivity|].
  cbn [fold_left]. rewrite IH. apply round_length.
Qed.

Lemma compress_length (h block : list Z) : length (SHA256.compress h block) = length h.
Proof.
  unfold SHA256.compress. rewrite length_zip_with, rounds_length. lia.
Qed.

Lemma compress_all_length (blocks : list (list Z)) :
  forall h, length (fold_left SHA256.compress blocks h) = length h.
Proof.
  induction blocks as [|b blocks IH]; intros h; [reflexivity|].
  cbn [fold_left]. rewrite IH. apply compress_length.
Qed.

Lemma words_bytes (ws : list Z) :
  length (concat (map (Bytes.be 4) ws)) = (4 * length ws)%nat
  /\ Forall byte (concat (map (Bytes.be 4) ws)).
Proof.
  induction ws as [|x ws [IHl IHb]]; [split; [reflexivity | constructor]|].
  cbn [map concat]. rewrite length_app, be_length, IHl. split; [cbn [length]; lia|].
  apply Forall_app. split; [apply be_bytes | exact IHb].
Qed.

(** A SHA-256 digest is 32 bytes, whatever the message. *)
Lemma digest_bytes (msg : list Z) :
  length (SHA256.digest msg) = 32%nat /\ Forall byte (SHA256.digest msg).
Proof.
  unfold SHA256.digest. cbv zeta.
  destruct (words_bytes (fold_left SHA256.compress
              (Bytes.chunks (length (SHA256.pad msg)) 64 (SHA256.pad msg)) SHA256.H0))
    as [Hl Hb].
  split; [|exact Hb]. rewrite Hl, compress_all_length. reflexivity.
Qed.

Lemma hex_digit_lower (d : Z) : 0 <= d < 16 -> is_lower_hex (Bytes.hex_digit d) = true.
Proof.
  intros H.
  assert (E : d = 0 \/ d = 1 \/ d = 2 \/ d = 3 \/ d = 4 \/ d = 5 \/ d = 6 \/ d = 7
              \/ d = 8 \/ d = 9 \/ d = 10 \/ d = 11 \/ d = 12 \/ d = 13 \/ d = 14
              \/ d = 15) by lia.
  repeat (destruct E as [-> | E]; [reflexivity|]). subst d. reflexivity.
Qed.

Lemma hex_shape (l : list Z) :
  Forall byte l ->
  String.length (Bytes.hex l) = (2 * length l)%nat
  /\ forallb is_lower_hex (list_ascii_of_string (Bytes.hex l)) = true.
Proof.
  induction 1 as [|b l Hb Hl [IHn IHc]]; [split; reflexivity|].
  cbn [Bytes.hex String.length list_ascii_of_string forallb length].
  rewrite IHn, IHc. split; [lia|].
  unfold byte in Hb.
  rewrite !hex_digit_lower; [reflexivity | |].
  - change 15 with (Z.ones 4). rewrite Z.land_ones by lia. apply Z.mod_pos_bound. lia.
  - rewrite Z.shiftr_div_pow2 by lia. split; [apply Z.div_pos; lia|].
    apply Z.div_lt_upper_bound; lia.
Qed.

(** X11. Whenever [getSignature] returns, what it returns is 64 characters
    long and made of the digits 0-9 and the lowercase letters a-f only. *)
Theorem signature_is_64_lowercase_hex
    (w : World) (path query nonce : value) (sig : string) :
  (getSignature path query nonce w).1 = Normal sig ->
  String.length sig = 64%nat
  /\ forallb is_lower_hex (list_ascii_of_string sig) = true.
Proof.
  intros H. destruct (secret_string_dec (_apiSecret (self w))) as [[s E]|N].
  - rewrite (getSignature_string _ _ _ _ s E) in H. cbn [fst] in H.
    injection H as <-. unfold crypto.mac, HMAC.sha256. cbv zeta.
    match goal with |- context [Bytes.hex (SHA256.digest ?m)] =>
      destruct (digest_bytes m) as [Hl Hb];
      destruct (hex_shape _ Hb) as [Hn Hc] end.
    split; [rewrite Hn, Hl; reflexivity | exact Hc].
  - rewrite (getSignature_not_string _ _ _ _ N) in H. discriminate H.
Qed.

Lemma signature_is_64_lowercase_hex_witness :
  (getSignature (VString "bot/info") (VString "botId=42") (VNumber 1700000000000)
     example_world).1
  = Normal "18541cedb5916a3ad812349e27d93305ea5a7601801732d1c49c1accc0c77fd8"
  /\ String.length "18541cedb5916a3ad812349e27d93305ea5a7601801732d1c49c1accc0c77fd8"
     = 64%nat.
Proof.
  assert (H : (getSignature (VString "bot/info") (VString "botId=42")
                 (VNumber 1700000000000) example_world).1
              = Normal "18541cedb5916a3ad812349e27d93305ea5a7601801732d1c49c1accc0c77fd8")
    by (vm_compute; reflexivity).
  split; [exact H|].
  exact (proj1 (signature_is_64_lowercase_hex example_world _ _ _ _ H)).
Defined.

(** X12. The signed string does not keep the path and the query apart: a
    path that ends in "/" and the nonce, with a query [q], is signed exactly
    as the path without that ending with the query nonce "/" [q].  The two
    calls return the same signature, for requests whose uris differ. *)
Theorem signature_mixes_path_and_query (p q : string) (n : Z) (w : World) :
  getSignature (VString (p +:+ "/" +:+ decimal n)) (VString q) (VNumber n) w
  = getSignature (VString p) (VString (decimal n +:+ "/" +:+ q)) (VNumber n) w
  /\ ((apiUrl +:+ (p +:+ "/" +:+ decimal n)) +:+ "?") +:+ q
     <> ((apiUrl +:+ p) +:+ "?") +:+ (decimal n +:+ "/" +:+ q).
Proof.
  split; [|rewrite !append_assoc; intros E;
           apply String.app_inj, String.app_inj in E; discriminate E].
  unfold getSignature.
  replace (strForSign (VString (p +:+ "/" +:+ decimal n)) (VString q) (VNumber n))
    with (strForSign (VString p) (VString (decimal n +:+ "/" +:+ q)) (VNumber n));
    [reflexivity|].
  unfold strForSign. cbn [to_string]. rewrite !append_assoc. reflexivity.
Qed.

(** ** Nothing of the signed string is lost on the way to the HMAC *)

Lemma check_below (n : nat) (P : Z -> bool) :
  forallb (fun k => P (Z.of_nat k)) (seq 0 n) = true ->
  forall x, 0 <= x < Z.of_nat n -> P x = true.
Proof.
  intros H x Hx. rewrite forallb_forall in H.
  specialize (H (Z.to_nat x)). rewrite Z2Nat.id in H by lia.
  apply H, in_seq. lia.
Qed.

Lemma check_bytes (P : Z -> Z -> bool) :
  forallb (fun k => forallb (fun l => P (Z.of_nat k) (Z.of_nat l)) (seq 0 256)) (seq 0 256)
  = true ->
  forall a b, byte a -> byte b -> P a b = true.
Proof.
  intros H a b Ha Hb.
  apply (check_below 256 (fun y => P a y)); [|exact Hb].
  apply (check_below 256
           (fun x => forallb (fun l => P x (Z.of_nat l)) (seq 0 256))); [exact H | exact Ha].
Qed.

Lemma digit_index (i : Z) :
  0 <= i < 64 -> index_in Base64.alphabet (Base64.digit i) 0 = Some i.
Proof.
  intros H.
  pose proof (check_below 64
    (fun i => match index_in Base64.alphabet (Base64.digit i) 0 with
              | Some j => j =? i
              | None => false
              end) ltac:(vm_compute; reflexivity) i H) as C.
  cbv beta in C.
  destruct (index_in Base64.alphabet (Base64.digit i) 0) as [j|]; [|discriminate C].
  apply Z.eqb_eq in C. congruence.
Qed.

Lemma digit_inj (i j : Z) :
  0 <= i < 64 -> 0 <= j < 64 -> Base64.digit i = Base64.digit j -> i = j.
Proof.
  intros Hi Hj E. apply digit_index in Hi, Hj. rewrite E in Hi. congruence.
Qed.

Lemma digit_not_pad (i : Z) : 0 <= i < 64 -> Base64.digit i <> "="%char.
Proof.
  intros Hi E. apply digit_index in Hi. rewrite E in Hi. discriminate Hi.
Qed.

Local Abbreviation sextet1 a := (Z.shiftr a 2).
Local Abbreviation sextet2 a b := (Z.lor (Z.shiftl (Z.land a 3) 4) (Z.shiftr b 4)).
Local Abbreviation sextet3 b c := (Z.lor (Z.shiftl (Z.land b 15) 2) (Z.shiftr c 6)).
Local Abbreviation sextet4 c := (Z.land c 63).
Local Abbreviation sextet2_last a := (Z.shiftl (Z.land a 3) 4).
Local Abbreviation sextet3_last b := (Z.shiftl (Z.land b 15) 2).

Local Abbreviation in64 x := ((0 <=? x) && (x <? 64)).

Ltac unbool :=
  repeat match goal with
         | H : _ && _ = true |- _ => apply andb_true_iff in H; destruct H
         | H : (_ =? _) = true |- _ => apply Z.eqb_eq in H
         | H : (_ <=? _) = true |- _ => apply Z.leb_le in H
         | H : (_ <? _) = true |- _ => apply Z.ltb_lt in H
         end.

(** The six-bit groups of two neighbouring bytes are below 64. *)
Lemma sextets_range (a b : Z) :
  byte a -> byte b ->
  0 <= sextet1 a < 64 /\ 0 <= sextet2 a b < 64 /\ 0 <= sextet3 a b < 64
  /\ 0 <= sextet4 a < 64 /\ 0 <= sextet2_last a < 64 /\ 0 <= sextet3_last a < 64.
Proof.
  intros Ha Hb.
  pose proof (check_bytes
    (fun a b => in64 (sextet1 a) && in64 (sextet2 a b) && in64 (sextet3 a b)
                && in64 (sextet4 a) && in64 (sextet2_last a) && in64 (sextet3_last a))
    ltac:(vm_compute; reflexivity) a b Ha Hb) as C.
  cbv beta in C. unbool. repeat split; assumption.
Qed.

(** The bytes can be read back from their six-bit groups. *)
Lemma sextets_back (a b : Z) :
  byte a -> byte b ->
  Z.lor (Z.shiftl (sextet1 a) 2) (Z.shiftr (sextet2 a b) 4) = a
  /\ Z.lor (Z.shiftl (sextet1 a) 2) (Z.shiftr (sextet2_last a) 4) = a
  /\ Z.land (sextet2 a b) 15 = Z.shiftr b 4
  /\ Z.shiftr (sextet3 a b) 2 = Z.land a 15
  /\ Z.shiftr (sextet3_last a) 2 = Z.land a 15
  /\ Z.lor (Z.shiftl (Z.shiftr a 4) 4) (Z.land a 15) = a
  /\ Z.lor (Z.shiftl (Z.land (sextet3 a b) 3) 6) (sextet4 b) = b.
Proof.
  intros Ha Hb.
  pose proof (check_bytes
    (fun a b =>
       (Z.lor (Z.shiftl (sextet1 a) 2) (Z.shiftr (sextet2 a b) 4) =? a)
       && (Z.lor (Z.shiftl (sextet1 a) 2) (Z.shiftr (sextet2_last a) 4) =? a)
       && (Z.land (sextet2 a b) 15 =? Z.shiftr b 4)
       && (Z.shiftr (sextet3 a b) 2 =? Z.land a 15)
       && (Z.shiftr (sextet3_last a) 2 =? Z.land a 15)
       && (Z.lor (Z.shiftl (Z.shiftr a 4) 4) (Z.land a 15) =? a)
       && (Z.lor (Z.shiftl (Z.land (sextet3 a b) 3) 6) (sextet4 b) =? b))
    ltac:(vm_compute; reflexivity) a b Ha Hb) as C.
  cbv beta in C. unbool. repeat split; assumption.
Qed.

Lemma first_byte_inj (a b a' b' : Z) :
  byte a -> byte b -> byte a' -> byte b' ->
  sextet1 a = sextet1 a' -> sextet2 a b = sextet2 a' b' -> a = a'.
Proof.
  intros Ha Hb Ha' Hb' E1 E2.
  destruct (sextets_back a b Ha Hb) as (R & _).
  destruct (sextets_back a' b' Ha' Hb') as (R' & _).
  rewrite <- R, <- R', E1, E2. reflexivity.
Qed.

Lemma only_byte_inj (a a' : Z) :
  byte a -> byte a' ->
  sextet1 a = sextet1 a' -> sextet2_last a = sextet2_last a' -> a = a'.
Proof.
  intros Ha Ha' E1 E2.
  destruct (sextets_back a a Ha Ha) as (_ & R & _).
  destruct (sextets_back a' a' Ha' Ha') as (_ & R' & _).
  rewrite <- R, <- R', E1, E2. reflexivity.
Qed.

Lemma halves_inj (b b' : Z) :
  byte b -> byte b' ->
  Z.shiftr b 4 = Z.shiftr b' 4 -> Z.land b 15 = Z.land b' 15 -> b = b'.
Proof.
  intros Hb Hb' E1 E2.
  destruct (sextets_back b b Hb Hb) as (_ & _ & _ & _ & _ & R & _).
  destruct (sextets_back b' b' Hb' Hb') as (_ & _ & _ & _ & _ & R' & _).
  rewrite <- R, <- R', E1, E2. reflexivity.
Qed.

Lemma second_byte_inj (a b c a' b' c' : Z) :
  byte a -> byte b -> byte c -> byte a' -> byte b' -> byte c' ->
  sextet2 a b = sextet2 a' b' -> sextet3 b c = sextet3 b' c' -> b = b'.
Proof.
  intros Ha Hb Hc Ha' Hb' Hc' E2 E3.
  destruct (sextets_back a b Ha Hb) as (_ & _ & H & _).
  destruct (sextets_back a' b' Ha' Hb') as (_ & _ & H' & _).
  destruct (sextets_back b c Hb Hc) as (_ & _ & _ & L & _).
  destruct (sextets_back b' c' Hb' Hc') as (_ & _ & _ & L' & _).
  apply halves_inj; [assumption | assumption | |].
  - rewrite <- H, <- H', E2. reflexivity.
  - rewrite <- L, <- L', E3. reflexivity.
Qed.

Lemma second_last_byte_inj (a b a' b' : Z) :
  byte a -> byte b -> byte a' -> byte b' ->
  sextet2 a b = sextet2 a' b' -> sextet3_last b = sextet3_last b' -> b = b'.
Proof.
  intros Ha Hb Ha' Hb' E2 E3.
  destruct (sextets_back a b Ha Hb) as (_ & _ & H & _).
  destruct (sextets_back a' b' Ha' Hb') as (_ & _ & H' & _).
  destruct (sextets_back b b Hb Hb) as (_ & _ & _ & _ & L & _).
  destruct (sextets_back b' b' Hb' Hb') as (_ & _ & _ & _ & L' & _).
  apply halves_inj; [assumption | assumption | |].
  - rewrite <- H, <- H', E2. reflexivity.
  - rewrite <- L, <- L', E3. reflexivity.
Qed.

Lemma third_byte_inj (b c b' c' : Z) :
  byte b -> byte c -> byte b' -> byte c' ->
  sextet3 b c = sextet3 b' c' -> sextet4 c = sextet4 c' -> c = c'.
Proof.
  intros Hb Hc Hb' Hc' E3 E4.
  destruct (sextets_back b c Hb Hc) as (_ & _ & _ & _ & _ & _ & R).
  destruct (sextets_back b' c' Hb' Hc') as (_ & _ & _ & _ & _ & _ & R').
  rewrite <- R, <- R', E3, E4. reflexivity.
Qed.

Lemma string_cons_inj (a a' : ascii) (s s' : string) :
  String a s = String a' s' -> a = a' /\ s = s'.
Proof. intros H. injection H. auto. Qed.

Ltac sextet_range :=
  match goal with
  | Ha : byte ?a, Hb : byte ?b |- 0 <= _ < 64 =>
      solve [ destruct (sextets_range a b Ha Hb) as (? & ? & ? & ? & ? & ?); assumption ]
  | Ha : byte ?a |- 0 <= _ < 64 =>
      solve [ destruct (sextets_range a a Ha Ha) as (? & ? & ? & ? & ? & ?); assumption ]
  end.

Ltac digits H :=
  repeat (apply string_cons_inj in H; let E := fresh "E" in destruct H as [E H]).

Ltac pad_clash :=
  match goal with
  | E : Base64.digit ?x = "="%char |- _ =>
      exfalso; apply (digit_not_pad x); [sextet_range | exact E]
  | E : "="%char = Base64.digit ?x |- _ =>
      exfalso; apply (digit_not_pad x); [sextet_range | symmetry; exact E]
  end.

Ltac same_digits :=
  repeat match goal with
         | E : Base64.digit _ = Base64.digit _ |- _ =>
             apply digit_inj in E; [| sextet_range | sextet_range]
         end.

(** Base64 loses nothing: two byte strings with the same encoding are the
    same. *)
Lemma encode_inj (n : nat) :
  forall l1 l2 : list Z,
    (length l1 <= n)%nat -> Forall byte l1 -> Forall byte l2 ->
    Base64.encode l1 = Base64.encode l2 -> l1 = l2.
Proof.
  induction n as [|n IH]; intros l1 l2 Hn B1 B2 H.
  - destruct l1; [|cbn in Hn; lia].
    destruct l2 as [|a' [|b' [|c' r']]]; [reflexivity | discriminate H ..].
  - destruct l1 as [|a [|b [|c r]]], l2 as [|a' [|b' [|c' r']]];
      try reflexivity; try discriminate H;
      repeat match goal with
             | B : Forall byte (_ :: _) |- _ =>
                 let Hx := fresh "Hx" in
                 apply Forall_cons in B as [Hx B]
             end;
      cbn [Base64.encode] in H; digits H; try pad_clash; same_digits.
    + f_equal. eapply only_byte_inj; eassumption.
    + assert (a = a') by (eapply (first_byte_inj a b a' b'); eassumption).
      assert (b = b') by (eapply (second_last_byte_inj a b a' b'); eassumption).
      congruence.
    + assert (a = a') by (eapply (first_byte_inj a b a' b'); eassumption).
      assert (b = b') by (eapply (second_byte_inj a b c a' b' c'); eassumption).
      assert (c = c') by (eapply (third_byte_inj b c b' c'); eassumption).
      assert (r = r') by (apply IH; [cbn [length] in Hn; lia | assumption ..]).
      congruence.
Qed.

Lemma of_string_bytes (s : string) : Forall byte (Bytes.of_string s).
Proof.
  induction s as [|a s IH]; [constructor|].
  change (Bytes.of_string (String a s))
    with (Z.of_N (N_of_ascii a) :: Bytes.of_string s).
  constructor; [|exact IH]. pose proof (N_ascii_bounded a) as H.
  apply N2Z.inj_lt in H. split; [apply N2Z.is_nonneg | exact H].
Qed.

Lemma of_string_inj (s t : string) : Bytes.of_string s = Bytes.of_string t -> s = t.
Proof.
  revert t. induction s as [|a s IH]; intros [|b t] H; try reflexivity;
    try discriminate H.
  change (Z.of_N (N_of_ascii a) :: Bytes.of_string s
          = Z.of_N (N_of_ascii b) :: Bytes.of_string t) in H.
  injection H as Hab Hst. f_equal; [|apply IH, Hst].
  apply N2Z.inj in Hab. rewrite <- (ascii_N_embedding a), <- (ascii_N_embedding b), Hab.
  reflexivity.
Qed.

Lemma length_append (s t : string) :
  String.length (s +:+ t) = (String.length s + String.length t)%nat.
Proof.
  induction s as [|a s IH]; [reflexivity|].
  rewrite append_cons. cbn [String.length]. rewrite IH. reflexivity.
Qed.

Lemma append_inj_r (s1 s2 t : string) : s1 +:+ t = s2 +:+ t -> s1 = s2.
Proof.
  revert s2. induction s1 as [|a s1 IH]; intros [|b s2] H; try reflexivity.
  - apply (f_equal String.length) in H. rewrite !length_append in H.
    cbn [String.length] in H. lia.
  - apply (f_equal String.length) in H. rewrite !length_append in H.
    cbn [String.length] in H. lia.
  - rewrite !append_cons in H. apply string_cons_inj in H as [-> H].
    f_equal. apply IH, H.
Qed.

Lemma decimal_inj (m n : Z) : decimal m = decimal n -> m = n.
Proof.
  unfold decimal. intros H.
  assert (P : forall z, NilZero.int_of_string (NilZero.string_of_int (Z.to_int z))
                        = Some (Z.to_int z)).
  { intros z. apply NilZero.isi; destruct z; cbn; try discriminate;
      intros E; injection E as E; exact (DecimalPos.Unsigned.to_uint_nonnil _ E). }
  pose proof (P m) as Pm. rewrite H, P in Pm. injection Pm as Pm.
  rewrite <- (DecimalZ.of_to m), <- (DecimalZ.of_to n), Pm. reflexivity.
Qed.

(** On the strings of the model the text handed to the HMAC determines the
    signed string: the bytes of a well-formed string and their base64 text
    lose nothing. *)
Lemma signed_text_inj (url query url' query' : value) (t t' : Z) :
  signed_text url query t = signed_text url' query' t' ->
  strForSign url query (VNumber t) = strForSign url' query' (VNumber t').
Proof.
  unfold signed_text. intros H.
  apply of_string_inj.
  apply (encode_inj (length (Bytes.of_string (strForSign url query (VNumber t)))));
    [lia | apply of_string_bytes | apply of_string_bytes | exact H].
Qed.

(** X14. The nonce tells dispatches apart: for the same url and query, two
    different clock readings give two different texts to sign. *)
Theorem distinct_nonces_distinct_signed_text (url query : value) (t1 t2 : Z) :
  t1 <> t2 -> signed_text url query t1 <> signed_text url query t2.
Proof.
  intros Ht H. apply Ht, decimal_inj.
  apply signed_text_inj in H. unfold strForSign in H.
  cbn [to_string] in H.
  apply append_inj_r, append_inj_r in H. exact (String.app_inj _ _ _ H).
Qed.

Lemma distinct_nonces_distinct_signed_text_witness :
  1700000000000 <> 1700000000001
  /\ signed_text (VString "bot/all") VNull 1700000000000
     <> signed_text (VString "bot/all") VNull 1700000000001.
Proof.
  assert (H : 1700000000000 <> 1700000000001) by discriminate.
  split; [exact H|].
  exact (distinct_nonces_distinct_signed_text (VString "bot/all") VNull _ _ H).
Defined.

(** ** The callback *)

(** X15. The callback settles a pending promise once: it rejects with [err]
    when [err] is truthy and fulfils with [body] otherwise (also for an
    [err] that is 0 or the empty string), it never looks at [resp], and
    running a callback for the same promise again changes nothing. *)
Theorem callback_settles_once
    (p : nat) (err resp body err' resp' body' : value) (w : World) :
  promises w !! p = Some Pending ->
  promises (callback p err resp body w).2 !! p
  = Some (if truthy err then Rejected err else Fulfilled body)
  /\ callback p err resp' body w = callback p err resp body w
  /\ (callback p err' resp' body' (callback p err resp body w).2).2
     = (callback p err resp body w).2.
Proof.
  intros H.
  assert (E : promises (callback p err resp body w).2 !! p
              = Some (if truthy err then Rejected err else Fulfilled body)).
  { unfold callback, Promise.reject, Promise.resolve.
    destruct (truthy err); apply settle_pending, H. }
  split; [exact E|]. split; [reflexivity|].
  unfold callback at 1, Promise.reject, Promise.resolve.
  destruct (truthy err'); (eapply settle_settled; [exact E|]);
    destruct (truthy err); discriminate.
Qed.

Lemma callback_settles_once_witness :
  promises (sendRequest (VString "GET") (VString "bot/all") VUndefined VUndefined
              example_world).2 !! 0%nat = Some Pending
  /\ promises
       (callback 0 (VNumber 0) VUndefined (VString "body")
          (sendRequest (VString "GET") (VString "bot/all") VUndefined VUndefined
             example_world).2).2 !! 0%nat
     = Some (Fulfilled (VString "body")).
Proof.
  assert (H : promises (sendRequest (VString "GET") (VString "bot/all") VUndefined
                          VUndefined example_world).2 !! 0%nat = Some Pending)
    by reflexivity.
  split; [exact H|].
  exact (proj1 (callback_settles_once 0 (VNumber 0) VUndefined (VString "body")
                  VNull VNull VNull _ H)).
Defined.
